(** * Tetris game-state engine (src/main.ts): shallow embedding and properties

    The embedding follows the TypeScript source function by function.
    JavaScript numbers that the engine manipulates are integers, except for
    the sentinel [-Infinity] that marks an unspawned brick; they are modelled
    by [num].  Arrays are lists, indexed with stdpp's lookup; what JavaScript
    does on an index out of range is written out where the source can reach
    it.  The two effects of the reducer that are not plain state updates, a
    [TypeError] raised by a write into a missing row and the [while] loop of
    [fastFall] that may run forever, are carried by [result]; the random
    brick source is an oracle threaded through the monad [M]. *)

From Stdlib Require Import ZArith List Bool Lia.
From stdpp Require Import base list.
Import ListNotations.
Open Scope Z_scope.

(** ** Constants *)

Definition GRID_WIDTH : Z := 10.
Definition GRID_HEIGHT : Z := 20.
Definition QUEUE_SIZE : nat := 4.
Definition ROW_ANIMATION_FRAMES : Z := 6.
Definition POINTS_PER_ROW : Z := 100.

(** ** Numbers: integers and [-Infinity] *)

Inductive num : Type :=
| NegInf
| Fin (z : Z).

Definition UNSPAWNED_POS : num := NegInf.

(** [a + k] for an integer [k]: [-Infinity + k] is [-Infinity]. *)
Definition nadd (a : num) (k : Z) : num :=
  match a with
  | NegInf => NegInf
  | Fin z => Fin (z + k)
  end.

(** [a === k] for an integer [k]. *)
Definition neqb (a : num) (k : Z) : bool :=
  match a with
  | NegInf => false
  | Fin z => z =? k
  end.

(** [a < k] for an integer [k]. *)
Definition nltb (a : num) (k : Z) : bool :=
  match a with
  | NegInf => true
  | Fin z => z <? k
  end.

Definition num_eqb (a b : num) : bool :=
  match a, b with
  | NegInf, NegInf => true
  | Fin x, Fin y => x =? y
  | _, _ => false
  end.

(** ** Brick types, shapes and orientations *)

Module BrickType.
Inductive t : Type := I | L | J | O | S | Z | T.

Definition eqb (a b : t) : bool :=
  match a, b with
  | I, I | L, L | J, J | O, O | S, S | Z, Z | T, T => true
  | _, _ => false
  end.
End BrickType.

Definition Bit := Z.

Definition BrickShape := list (list Bit).

(** JavaScript truthiness of a bit ([undefined] is read as [0]). *)
Definition truthy (b : Bit) : bool := negb (b =? 0).

Definition brickTypeToShapeMap (t : BrickType.t) : BrickShape :=
  match t with
  | BrickType.I =>
      [ [0; 0; 0; 0];
        [1; 1; 1; 1];
        [0; 0; 0; 0];
        [0; 0; 0; 0] ]
  | BrickType.L =>
      [ [1; 0; 0];
        [1; 1; 1];
        [0; 0; 0] ]
  | BrickType.J =>
      [ [0; 0; 1];
        [1; 1; 1];
        [0; 0; 0] ]
  | BrickType.O =>
      [ [1; 1];
        [1; 1] ]
  | BrickType.S =>
      [ [0; 1; 1];
        [1; 1; 0];
        [0; 0; 0] ]
  | BrickType.Z =>
      [ [1; 1; 0];
        [0; 1; 1];
        [0; 0; 0] ]
  | BrickType.T =>
      [ [0; 1; 0];
        [1; 1; 1];
        [0; 0; 0] ]
  end.

Definition shapeSize (b : BrickShape) : nat := length b.

(** [b[y][x]]; an index past the end of a row reads [undefined], which every
    use in the source only tests for truthiness. *)
Definition bitAt (b : BrickShape) (y x : nat) : Bit :=
  match b !! y with
  | Some row => default 0 (row !! x)
  | None => 0
  end.

Definition isEmptyBitGridRow (b : BrickShape) (y : nat) : bool :=
  match b !! y with
  | Some row => forallb (fun x => negb (truthy x)) row
  | None => true
  end.

Definition copyBrickShape (b : BrickShape) : BrickShape :=
  let size := shapeSize b in
  map (fun y => map (fun x => bitAt b y x) (seq 0 size)) (seq 0 size).

Module Orientation.
Inductive t : Type := SPAWN | RIGHT | TWO | LEFT.

Definition toNat (o : t) : nat :=
  match o with
  | SPAWN => 0
  | RIGHT => 1
  | TWO => 2
  | LEFT => 3
  end.

Definition ofNat (n : nat) : t :=
  match n with
  | 0%nat => SPAWN
  | 1%nat => RIGHT
  | 2%nat => TWO
  | _ => LEFT
  end.
End Orientation.

Definition incrementOrientation (o : Orientation.t) : Orientation.t :=
  Orientation.ofNat ((Orientation.toNat o + 1) mod 4).

Definition NumPair : Type := Z * Z.

Definition WallKickList := list NumPair.

Definition jlstzOrientationToWallKickMap (o : Orientation.t) : WallKickList :=
  match o with
  | Orientation.SPAWN => [(0, 0); (-1, 0); (-1, 1); (0, -2); (-1, -2)]
  | Orientation.RIGHT => [(0, 0); (1, 0); (1, -1); (0, 2); (1, 2)]
  | Orientation.TWO => [(0, 0); (1, 0); (1, 1); (0, -2); (1, -2)]
  | Orientation.LEFT => [(0, 0); (-1, 0); (-1, -1); (0, 2); (-1, 2)]
  end.

Definition iOrientationToWallKickMap (o : Orientation.t) : WallKickList :=
  match o with
  | Orientation.SPAWN => [(0, 0); (-2, 0); (1, 0); (-2, -1); (1, 2)]
  | Orientation.RIGHT => [(0, 0); (-1, 0); (2, 0); (-1, 2); (2, -1)]
  | Orientation.TWO => [(0, 0); (2, 0); (-1, 0); (2, 1); (-1, -2)]
  | Orientation.LEFT => [(0, 0); (1, 0); (-2, 0); (1, -2); (-2, 1)]
  end.

(** [cur[r][c] = v]; [cur] is always a [size] by [size] copy and the loops of
    [rotateShape] stay inside it. *)
Definition setBit (cur : BrickShape) (r c : nat) (v : Bit) : BrickShape :=
  alter (fun row => <[c := v]> row) r cur.

(** One pass of the two inner loops of [rotateShape]. *)
Definition rotatePass (size : nat) (prev cur : BrickShape) : BrickShape :=
  foldl
    (fun cur x =>
       foldl
         (fun cur y => setBit cur x (size - 1 - y) (bitAt prev y x))
         cur (seq 0 size))
    cur (seq 0 size).

(** The outer loop of [rotateShape], [n] iterations left. *)
Fixpoint rotateLoop (n size : nat) (prev cur : BrickShape) : BrickShape :=
  match n with
  | 0%nat => cur
  | Datatypes.S n' =>
      let cur' := rotatePass size prev cur in
      rotateLoop n' size (copyBrickShape cur') cur'
  end.

Definition rotateShape (prev : BrickShape) (orientation : Orientation.t)
  : BrickShape :=
  rotateLoop (Orientation.toNat orientation) (shapeSize prev) prev
    (copyBrickShape prev).

(** ** The grid of settled cells *)

(** A grid slot.  [hole] is an array index that was never assigned: a write
    past the end of a row leaves such indices behind; they read as
    [undefined] and [Array.prototype.every] skips them. *)
Inductive Cell : Type :=
| emptyCell
| brick (t : BrickType.t)
| hole.

Definition Grid := list (list Cell).

(** [grid[y]], [None] for [undefined]. *)
Definition gridRow (grid : Grid) (y : num) : option (list Cell) :=
  match y with
  | NegInf => None
  | Fin z => if z <? 0 then None else grid !! Z.to_nat z
  end.

(** [row[x]], [None] for [undefined]. *)
Definition rowCell (row : list Cell) (x : num) : option Cell :=
  match x with
  | NegInf => None
  | Fin z =>
      if z <? 0 then None
      else match row !! Z.to_nat z with
           | Some hole => None
           | c => c
           end
  end.

Definition isEmptyCell (grid : Grid) (x y : num) : bool :=
  match gridRow grid y with
  | None => true
  | Some row =>
      match rowCell row x with
      | Some emptyCell => true
      | _ => false
      end
  end.

Definition collision (grid : Grid) (shape : BrickShape) (x0 y0 : num) : bool :=
  let size := shapeSize shape in
  existsb
    (fun y =>
       existsb
         (fun x =>
            truthy (bitAt shape y x)
            && negb (isEmptyCell grid (nadd x0 (Z.of_nat x))
                       (nadd y0 (Z.of_nat y))))
         (seq 0 size))
    (seq 0 size).

Definition emptyRow (width : nat) : list Cell := replicate width emptyCell.

Definition emptyCells (width height : nat) : Grid :=
  replicate height (emptyRow width).

Definition isCompleteRow (row : list Cell) : bool :=
  forallb (fun x => match x with emptyCell => false | _ => true end) row.

Definition hasCompletedRow (grid : Grid) : bool := existsb isCompleteRow grid.

(** The three loops of [removeCompletedRowsFromGrid], with [push] as
    appending at the end. *)
Definition removeCompletedRowsFromGrid (grid : Grid) : Grid :=
  let remaining :=
    foldl (fun acc row => if isCompleteRow row then acc else acc ++ [row])
      [] grid in
  let newGrid :=
    foldl (fun acc _ => acc ++ [emptyRow (Z.to_nat GRID_WIDTH)]) []
      (seq 0 (Z.to_nat (GRID_HEIGHT - Z.of_nat (length remaining)))) in
  foldl (fun acc row => acc ++ [row]) newGrid remaining.

(** ** Outcomes of a call *)

(** A call returns a value, raises a [TypeError] (a write into a row that
    does not exist), or is still running when the fuel given to the loop of
    [fastFall] is used up. *)
Inductive result (A : Type) : Type :=
| Ok (a : A)
| TypeError
| OutOfFuel.

Arguments Ok {A} a.
Arguments TypeError {A}.
Arguments OutOfFuel {A}.

Definition rbind {A B : Type} (m : result A) (k : A -> result B) : result B :=
  match m with
  | Ok a => k a
  | TypeError => TypeError
  | OutOfFuel => OutOfFuel
  end.

Fixpoint foldM {A B : Type} (f : A -> B -> result A) (l : list B) (a : A)
  : result A :=
  match l with
  | [] => Ok a
  | b :: l' => rbind (f a b) (foldM f l')
  end.

(** ** The falling brick *)

Module FallingBrick.

Record t : Type := mk {
  type : BrickType.t;
  x : num;
  y : num;
  orientation : Orientation.t;
}.

(** [new FallingBrick(type)]. *)
Definition new (type : BrickType.t) : t :=
  mk type UNSPAWNED_POS UNSPAWNED_POS Orientation.SPAWN.

Definition setX (this : t) (v : num) : t :=
  mk this.(type) v this.(y) this.(orientation).

Definition setY (this : t) (v : num) : t :=
  mk this.(type) this.(x) v this.(orientation).

Definition isUnspawned (this : t) : bool :=
  num_eqb this.(x) UNSPAWNED_POS.

Definition shape (this : t) : BrickShape :=
  let shape := brickTypeToShapeMap this.(type) in
  if isUnspawned this || BrickType.eqb this.(type) BrickType.O then shape
  else rotateShape shape this.(orientation).

Definition spawn (this : t) : t :=
  let size := Z.of_nat (shapeSize (shape this)) in
  mk this.(type) (Fin ((GRID_WIDTH - size) / 2)) (Fin (- size))
    this.(orientation).

Definition isTouchingFloor (this : t) : bool :=
  let shape := shape this in
  let size := shapeSize shape in
  existsb
    (fun row =>
       negb (isEmptyBitGridRow shape row)
       && neqb (nadd (nadd this.(y) (Z.of_nat row)) 1) GRID_HEIGHT)
    (rev (seq 0 size)).

Definition isOnTopOfBricks (this : t) (grid : Grid) : bool :=
  collision grid (shape this) this.(x) (nadd this.(y) 1).

Definition canFall (this : t) (grid : Grid) : bool :=
  negb (isTouchingFloor this) && negb (isOnTopOfBricks this grid).

(** Returns whether the brick can no longer fall, and the brick. *)
Definition tickGravity (this : t) (grid : Grid) : bool * t :=
  if negb (canFall this grid) then (true, this)
  else (false, setY this (nadd this.(y) 1)).

Definition gameOver (this : t) (grid : Grid) : bool :=
  isOnTopOfBricks this grid && nltb this.(y) 0.

(** The [for] loop of [rotate] over the kick offsets. *)
Fixpoint tryKicks (this : t) (grid : Grid) (nextOrientation : Orientation.t)
  (nextShape : BrickShape) (pairs : WallKickList) : t :=
  match pairs with
  | [] => this
  | (dx, dy) :: rest =>
      if negb (collision grid nextShape (nadd this.(x) dx)
                 (nadd this.(y) dy))
      then mk this.(type) (nadd this.(x) dx) (nadd this.(y) dy)
             nextOrientation
      else tryKicks this grid nextOrientation nextShape rest
  end.

Definition rotate (this : t) (grid : Grid) : t :=
  if isUnspawned this then this
  else if BrickType.eqb this.(type) BrickType.O then this
  else
    let nextOrientation := incrementOrientation this.(orientation) in
    let nextShape := rotateShape (shape this) nextOrientation in
    let orientationToWallkickMap :=
      if BrickType.eqb this.(type) BrickType.I
      then iOrientationToWallKickMap
      else jlstzOrientationToWallKickMap in
    tryKicks this grid nextOrientation nextShape
      (orientationToWallkickMap this.(orientation)).

Definition isAgainstWall (this : t) (left : bool) : bool :=
  let shape := shape this in
  let size := shapeSize shape in
  let bound := if left then 0 else GRID_WIDTH - 1 in
  existsb
    (fun row =>
       existsb
         (fun col =>
            truthy (bitAt shape row col)
            && neqb (nadd this.(x) (Z.of_nat col)) bound)
         (seq 0 size))
    (seq 0 size).

Definition canMove (this : t) (grid : Grid) (left : bool) : bool :=
  let shape := shape this in
  negb (collision grid shape (nadd this.(x) (if left then -1 else 1))
          this.(y))
  && negb (isAgainstWall this left).

Definition canMoveLeft (this : t) (grid : Grid) : bool :=
  canMove this grid true.

Definition canMoveRight (this : t) (grid : Grid) : bool :=
  canMove this grid false.

Definition moveLeft (this : t) (grid : Grid) : t :=
  if isUnspawned this || negb (canMoveLeft this grid) then this
  else setX this (nadd this.(x) (-1)).

Definition moveRight (this : t) (grid : Grid) : t :=
  if isUnspawned this || negb (canMoveRight this grid) then this
  else setX this (nadd this.(x) 1).

(** [while (this.canFall(grid)) this.y++], one unit of fuel per test of
    the loop condition. *)
Fixpoint fastFallLoop (fuel : nat) (this : t) (grid : Grid) : result t :=
  match fuel with
  | 0%nat => OutOfFuel
  | Datatypes.S fuel' =>
      if canFall this grid
      then fastFallLoop fuel' (setY this (nadd this.(y) 1)) grid
      else Ok this
  end.

Definition fastFall (fuel : nat) (this : t) (grid : Grid) : result t :=
  if isUnspawned this then Ok this
  else fastFallLoop fuel this grid.

End FallingBrick.

(** ** Game state *)

Module GamePhase.
Inductive t : Type := UNSTARTED | IN_PROGRESS | OVER.

Definition eqb (a b : t) : bool :=
  match a, b with
  | UNSTARTED, UNSTARTED | IN_PROGRESS, IN_PROGRESS | OVER, OVER => true
  | _, _ => false
  end.
End GamePhase.

Definition Queue := list BrickType.t.

Record State : Type := mkState {
  phase : GamePhase.t;
  bricks : Grid;
  score : Z;
  fallingBrick : FallingBrick.t;
  queue : Queue;
  completedRowAnimationFrame : option Z;
}.

Definition setPhase (s : State) (v : GamePhase.t) : State :=
  mkState v s.(bricks) s.(score) s.(fallingBrick) s.(queue)
    s.(completedRowAnimationFrame).

Definition setBricks (s : State) (v : Grid) : State :=
  mkState s.(phase) v s.(score) s.(fallingBrick) s.(queue)
    s.(completedRowAnimationFrame).

Definition setScore (s : State) (v : Z) : State :=
  mkState s.(phase) s.(bricks) v s.(fallingBrick) s.(queue)
    s.(completedRowAnimationFrame).

Definition setFallingBrick (s : State) (v : FallingBrick.t) : State :=
  mkState s.(phase) s.(bricks) s.(score) v s.(queue)
    s.(completedRowAnimationFrame).

Definition setFrame (s : State) (v : option Z) : State :=
  mkState s.(phase) s.(bricks) s.(score) s.(fallingBrick) s.(queue) v.

(** [row[x] = v] on a row that exists.  A negative (or infinite) index
    stores a property that no array operation of the program sees, and that
    reads back as non-empty exactly as [undefined] did; an index past the
    end grows the row, leaving holes. *)
Definition setCell (row : list Cell) (x : num) (v : Cell) : list Cell :=
  match x with
  | NegInf => row
  | Fin z =>
      if z <? 0 then row
      else
        let i := Z.to_nat z in
        if (i <? length row)%nat then <[i := v]> row
        else row ++ replicate (i - length row)%nat hole ++ [v]
  end.

(** [grid[y][x] = v]: a [TypeError] when [grid[y]] is [undefined]. *)
Definition writeCell (grid : Grid) (x y : num) (v : BrickType.t)
  : result Grid :=
  match y with
  | NegInf => TypeError
  | Fin z =>
      if z <? 0 then TypeError
      else match grid !! Z.to_nat z with
           | None => TypeError
           | Some row => Ok (<[Z.to_nat z := setCell row x (brick v)]> grid)
           end
  end.

Definition writeFallingBrickToGrid (state : State) : result State :=
  let fb := state.(fallingBrick) in
  let shape := FallingBrick.shape fb in
  let size := shapeSize shape in
  rbind
    (foldM
      (fun grid y =>
         if isEmptyBitGridRow shape y then Ok grid
         else
           foldM
             (fun grid x =>
                if negb (truthy (bitAt shape y x)) then Ok grid
                else writeCell grid
                       (nadd fb.(FallingBrick.x) (Z.of_nat x))
                       (nadd fb.(FallingBrick.y) (Z.of_nat y))
                       fb.(FallingBrick.type))
             (seq 0 size) grid)
      (seq 0 size) state.(bricks))
    (fun grid => Ok (setBricks state grid)).

Definition gameOver (state : State) : State := setPhase state GamePhase.OVER.

Definition isRowAnimating (state : State) : bool :=
  match state.(completedRowAnimationFrame) with
  | Some _ => true
  | None => false
  end.

Definition nextFrame (x : Z) : option Z :=
  if x =? ROW_ANIMATION_FRAMES then None else Some (x + 1).

Definition tickCompletedRowAnimation (state : State) : State :=
  setFrame state
    match state.(completedRowAnimationFrame) with
    | Some x => nextFrame x
    | None => Some 0
    end.

Definition removeCompletedRows (state : State) : State :=
  setBricks state (removeCompletedRowsFromGrid state.(bricks)).

(** The double nearest to an integer, ties to even: an integer of absolute
    value up to 2^53 is a double; beyond, a double keeps the 53 leading
    bits.  (The overflow to [Infinity], at 2^1024, is not modelled.) *)
Definition roundToDouble (z : Z) : Z :=
  let a := Z.abs z in
  if a <=? 2 ^ 53 then z
  else
    let e := Z.log2 a - 52 in
    let q := a / 2 ^ e in
    let r := a mod 2 ^ e in
    let half := 2 ^ (e - 1) in
    let q' :=
      if r <? half then q
      else if half <? r then q + 1
      else if Z.even q then q else q + 1 in
    Z.sgn z * (q' * 2 ^ e).

(** [a + b] on numbers that hold integers: the score is a double. *)
Definition jsAdd (a b : Z) : Z := roundToDouble (a + b).

Definition awardPoints (state : State) : State :=
  let points :=
    foldl
      (fun points row =>
         if isCompleteRow row then jsAdd points POINTS_PER_ROW else points)
      0 state.(bricks) in
  setScore state (jsAdd state.(score) points).

(** ** The reducer *)

Module Action.
Inductive t : Type := TICK_CLOCK | START_GAME | DOWN | LEFT | RIGHT | UP.
End Action.

Section Reducer.

(** The random source: [draw n] is the value of the [n]-th call of
    [randomBrickType] (counting from 0). *)
Variable draw : nat -> BrickType.t.

(** Computations that call [randomBrickType]: the number of calls made so
    far is threaded through. *)
Definition M (A : Type) : Type := nat -> result (A * nat).

Definition ret {A : Type} (a : A) : M A := fun n => Ok (a, n).

Definition bind {A B : Type} (m : M A) (k : A -> M B) : M B :=
  fun n =>
    match m n with
    | Ok (a, n') => k a n'
    | TypeError => TypeError
    | OutOfFuel => OutOfFuel
    end.

Definition lift {A : Type} (r : result A) : M A :=
  fun n =>
    match r with
    | Ok a => Ok (a, n)
    | TypeError => TypeError
    | OutOfFuel => OutOfFuel
    end.

Definition randomBrickType : M BrickType.t :=
  fun n => Ok (draw n, Datatypes.S n).

(** [[...Array(k)].map(() => randomBrickType())]. *)
Fixpoint randomBrickTypes (k : nat) : M (list BrickType.t) :=
  match k with
  | 0%nat => ret []
  | Datatypes.S k' =>
      bind randomBrickType (fun b =>
      bind (randomBrickTypes k') (fun l => ret (b :: l)))
  end.

Definition initialState : M State :=
  bind randomBrickType (fun first =>
  bind (randomBrickTypes QUEUE_SIZE) (fun q =>
  ret (mkState GamePhase.UNSTARTED
         (emptyCells (Z.to_nat GRID_WIDTH) (Z.to_nat GRID_HEIGHT))
         0 (FallingBrick.new first) q None))).

(** On an empty queue the source builds a brick whose type is [undefined]
    and fails with a [TypeError] at its first use, the [spawn] of the next
    tick; the model fails here. *)
Definition dequeueNextBrick (state : State) : M State :=
  bind randomBrickType (fun b =>
  match state.(queue) with
  | [] => lift TypeError
  | front :: _ =>
      ret (mkState state.(phase) state.(bricks) state.(score)
             (FallingBrick.new front)
             (take (QUEUE_SIZE - 1) (drop 1 state.(queue)) ++ [b])
             state.(completedRowAnimationFrame))
  end).

Definition tickClock (state : State) : M State :=
  if negb (GamePhase.eqb state.(phase) GamePhase.IN_PROGRESS) then ret state
  else if isRowAnimating state then
    let state := tickCompletedRowAnimation state in
    if isRowAnimating state then ret state
    else ret (removeCompletedRows state)
  else
    let state :=
      if FallingBrick.isUnspawned state.(fallingBrick)
      then setFallingBrick state (FallingBrick.spawn state.(fallingBrick))
      else state in
    let '(landed, fb) :=
      FallingBrick.tickGravity state.(fallingBrick) state.(bricks) in
    let state := setFallingBrick state fb in
    if landed then
      if FallingBrick.gameOver state.(fallingBrick) state.(bricks)
      then ret (gameOver state)
      else
        bind (lift (writeFallingBrickToGrid state)) (fun state =>
        bind (dequeueNextBrick state) (fun state =>
        if negb (hasCompletedRow state.(bricks)) then ret state
        else ret (awardPoints (tickCompletedRowAnimation state))))
    else ret state.

Definition handleActions (fuel : nat) (state : State) (action : Action.t)
  : M State :=
  match action with
  | Action.TICK_CLOCK => tickClock state
  | Action.START_GAME =>
      bind initialState (fun s => ret (setPhase s GamePhase.IN_PROGRESS))
  | Action.LEFT =>
      ret (setFallingBrick state
             (FallingBrick.moveLeft state.(fallingBrick) state.(bricks)))
  | Action.RIGHT =>
      ret (setFallingBrick state
             (FallingBrick.moveRight state.(fallingBrick) state.(bricks)))
  | Action.UP =>
      ret (setFallingBrick state
             (FallingBrick.rotate state.(fallingBrick) state.(bricks)))
  | Action.DOWN =>
      bind (lift (FallingBrick.fastFall fuel state.(fallingBrick)
                    state.(bricks)))
        (fun fb => ret (setFallingBrick state fb))
  end.

(** The fold of [scan(handleActions, initialState())] over a list of
    actions. *)
Fixpoint runActions (fuel : nat) (state : State) (actions : list Action.t)
  : M State :=
  match actions with
  | [] => ret state
  | a :: rest =>
      bind (handleActions fuel state a) (fun s => runActions fuel s rest)
  end.

Definition game (fuel : nat) (actions : list Action.t) : M State :=
  bind initialState (fun s => runActions fuel s actions).

End Reducer.

(** ** The projection of the falling brick (presenter) *)

Module Presenter.

(** [FallingBrick.copy]. *)
Definition copy (this : FallingBrick.t) : FallingBrick.t :=
  FallingBrick.mk this.(FallingBrick.type) this.(FallingBrick.x)
    this.(FallingBrick.y) this.(FallingBrick.orientation).

(** The brick that [renderProjection] draws, [None] when it returns before
    drawing. *)
Definition renderProjection (fuel : nat) (fb : FallingBrick.t) (grid : Grid)
  : result (option FallingBrick.t) :=
  rbind (FallingBrick.fastFall fuel (copy fb) grid)
    (fun proj =>
       if num_eqb proj.(FallingBrick.y) fb.(FallingBrick.y) then Ok None
       else Ok (Some proj)).

End Presenter.

(** * Vocabulary of the properties and sample inputs *)

(** [inRange lo hi a]: [a] is an integer with [lo <= a < hi]. *)
Definition inRange (lo hi : Z) (a : num) : Prop :=
  match a with
  | NegInf => False
  | Fin z => lo <= z < hi
  end.

(** A grid of 20 rows of 10 cells. *)
Definition boardShaped (grid : Grid) : Prop :=
  length grid = Z.to_nat GRID_HEIGHT
  /\ Forall (fun row => length row = Z.to_nat GRID_WIDTH) grid.

Definition isIncompleteRow (row : list Cell) : bool := negb (isCompleteRow row).

Definition oneCompleteRow : Grid :=
  replicate 19 (emptyRow (Z.to_nat GRID_WIDTH))
  ++ [replicate 10 (brick BrickType.I)].

(** A state in the middle of an animation, at frame [n], whose bottom row is
    complete. *)
Definition animatingAt (n : Z) : State :=
  mkState GamePhase.IN_PROGRESS oneCompleteRow 100
    (FallingBrick.new BrickType.T)
    [BrickType.I; BrickType.L; BrickType.J; BrickType.O] (Some n).




(** The brick [j] rows further down. *)
Definition lower (fb : FallingBrick.t) (j : Z) : FallingBrick.t :=
  FallingBrick.setY fb (nadd fb.(FallingBrick.y) j).

(** [restsAboveFloor fb d]: the brick has an integer row position and an
    occupied row of its shape lies [d] rows above the last row of the
    board. *)
Definition restsAboveFloor (fb : FallingBrick.t) (d : nat) : Prop :=
  exists (yz : Z) (r : nat),
    fb.(FallingBrick.y) = Fin yz
    /\ (r < shapeSize (FallingBrick.shape fb))%nat
    /\ isEmptyBitGridRow (FallingBrick.shape fb) r = false
    /\ yz + Z.of_nat r + 1 + Z.of_nat d = GRID_HEIGHT.

(** A brick none of whose occupied rows is on or above the last row of the
    board. *)
Definition sunkBelowFloor (fb : FallingBrick.t) : Prop :=
  exists yz : Z,
    fb.(FallingBrick.y) = Fin yz
    /\ forall r : nat,
         isEmptyBitGridRow (FallingBrick.shape fb) r = false ->
         GRID_HEIGHT <= yz + Z.of_nat r.

(** A T brick at the top of the board; the middle row of its shape is 18
    rows above the last row. *)
Definition brickAtTop : FallingBrick.t :=
  FallingBrick.mk BrickType.T (Fin 3) (Fin 0) Orientation.SPAWN.

Definition allI : nat -> BrickType.t := fun _ => BrickType.I.

(** The state right after START_GAME when every draw is an I. *)
Definition freshGame : State :=
  mkState GamePhase.IN_PROGRESS (emptyCells 10 20) 0
    (FallingBrick.new BrickType.I)
    [BrickType.I; BrickType.I; BrickType.I; BrickType.I] None.

(** The state after START_GAME, TICK_CLOCK, DOWN, UP, UP when every draw is
    an I: the second rotation has put the only occupied row of the I brick
    on row 20, below the board. *)
Definition sunkGame : State :=
  mkState GamePhase.IN_PROGRESS (emptyCells 10 20) 0
    (FallingBrick.mk BrickType.I (Fin 3) (Fin 18) Orientation.TWO)
    [BrickType.I; BrickType.I; BrickType.I; BrickType.I] None.

(** An IN_PROGRESS state with a T brick at the top of an empty board. *)
Definition dropFromTop : State :=
  mkState GamePhase.IN_PROGRESS (emptyCells 10 20) 0 brickAtTop
    [BrickType.I; BrickType.L; BrickType.J; BrickType.O] None.

(** The falling brick as TICK_CLOCK sees it once it has spawned it. *)
Definition spawned (fb : FallingBrick.t) : FallingBrick.t :=
  if FallingBrick.isUnspawned fb then FallingBrick.spawn fb else fb.

(** [locksIn s]: TICK_CLOCK on [s] reaches the lock-in step. *)
Definition locksIn (s : State) : Prop :=
  s.(phase) = GamePhase.IN_PROGRESS
  /\ s.(completedRowAnimationFrame) = None
  /\ FallingBrick.canFall (spawned s.(fallingBrick)) s.(bricks) = false
  /\ FallingBrick.gameOver (spawned s.(fallingBrick)) s.(bricks) = false.

(** Follows the spec's words, for comparison with [FallingBrick.rotate]: the
    shape that is tested against the grid is the canonical shape of the brick
    rotated to the next orientation. *)
Definition rotateAsSpecified (this : FallingBrick.t) (grid : Grid)
  : FallingBrick.t :=
  if FallingBrick.isUnspawned this then this
  else if BrickType.eqb this.(FallingBrick.type) BrickType.O then this
  else
    let nextOrientation := incrementOrientation this.(FallingBrick.orientation) in
    let nextShape :=
      rotateShape (brickTypeToShapeMap this.(FallingBrick.type))
        nextOrientation in
    let orientationToWallkickMap :=
      if BrickType.eqb this.(FallingBrick.type) BrickType.I
      then iOrientationToWallKickMap
      else jlstzOrientationToWallKickMap in
    FallingBrick.tryKicks this grid nextOrientation nextShape
      (orientationToWallkickMap this.(FallingBrick.orientation)).

(** An O brick settled in columns 6 and 7 of the two bottom rows. *)
Definition gridWithSettledO : Grid :=
  replicate 18 (emptyRow 10)
  ++ replicate 2
       (replicate 6 emptyCell ++ replicate 2 (brick BrickType.O)
        ++ replicate 2 emptyCell).

(** An upright I brick standing on the floor in column 5. *)
Definition uprightI : FallingBrick.t :=
  FallingBrick.mk BrickType.I (Fin 3) (Fin 16) Orientation.RIGHT.

(** [grid[y][x]] for indices inside the board. *)
Definition cellAt (grid : Grid) (x y : nat) : option Cell :=
  match grid !! y with
  | Some row => row !! x
  | None => None
  end.

(** The first brick of the game is an O, every other draw is an I.  (Draws
    0 to 4 seed the state that START_GAME discards, draw 5 is the first
    falling brick.) *)
Definition firstO : nat -> BrickType.t :=
  fun n => if (n =? 5)%nat then BrickType.O else BrickType.I.

(** Drop the O in columns 6 and 7, stand the I upright next to it in column
    5, and rotate it once more. *)
Definition playOntoSettledO : list Action.t :=
  [Action.START_GAME;
   Action.TICK_CLOCK; Action.RIGHT; Action.RIGHT; Action.DOWN;
   Action.TICK_CLOCK;
   Action.TICK_CLOCK; Action.UP; Action.DOWN; Action.UP].

Definition allO : nat -> BrickType.t := fun _ => BrickType.O.

(** Ten O bricks dropped on top of one another fill columns 4 and 5; the
    eleventh cannot enter the board. *)
Definition playUntilOver : list Action.t :=
  Action.START_GAME
  :: concat (replicate 10 [Action.TICK_CLOCK; Action.DOWN; Action.TICK_CLOCK])
  ++ [Action.TICK_CLOCK].

(** A [size] by [size] bit matrix. *)
Definition squareOf (size : nat) (b : BrickShape) : Prop :=
  length b = size /\ Forall (fun row => length row = size) b.

(** The index map of a clockwise quarter turn of a [size] by [size] box:
    the cell that ends at row [r], column [c] starts at row [size - 1 - c],
    column [r]. *)
Definition turnIndex (size : nat) (p : nat * nat) : nat * nat :=
  ((size - 1 - snd p)%nat, fst p).

(** [covers fb col row]: the brick has an occupied cell at column [col],
    row [row] of the board coordinates. *)
Definition covers (fb : FallingBrick.t) (col row : Z) : bool :=
  match fb.(FallingBrick.x), fb.(FallingBrick.y) with
  | Fin xz, Fin yz =>
      (xz <=? col) && (yz <=? row)
      && truthy (bitAt (FallingBrick.shape fb) (Z.to_nat (row - yz))
                   (Z.to_nat (col - xz)))
  | _, _ => false
  end.

(** [rowExists grid y]: [grid[y]] is a row. *)
Definition rowExists (grid : Grid) (y : num) : Prop :=
  inRange 0 (Z.of_nat (length grid)) y.

(** Every occupied cell of the brick lies on the 20 by 10 board. *)
Definition insideBoard (fb : FallingBrick.t) : Prop :=
  exists xz yz,
    fb.(FallingBrick.x) = Fin xz /\ fb.(FallingBrick.y) = Fin yz
    /\ forall r c : nat,
         truthy (bitAt (FallingBrick.shape fb) r c) = true ->
         0 <= xz + Z.of_nat c < GRID_WIDTH
         /\ 0 <= yz + Z.of_nat r < GRID_HEIGHT.

(** The body of the outer loop of [writeFallingBrickToGrid]. *)
Definition writeRow (fb : FallingBrick.t) (grid : Grid) (y : nat)
  : result Grid :=
  let shape := FallingBrick.shape fb in
  if isEmptyBitGridRow shape y then Ok grid
  else
    foldM
      (fun grid x =>
         if negb (truthy (bitAt shape y x)) then Ok grid
         else writeCell grid (nadd fb.(FallingBrick.x) (Z.of_nat x))
                (nadd fb.(FallingBrick.y) (Z.of_nat y))
                fb.(FallingBrick.type))
      (seq 0 (shapeSize shape)) grid.

(** The cells written by the inner loop of [writeFallingBrickToGrid] for
    shape row [r] after [m] iterations, for a brick at [(xz, yz)]. *)
Definition rowDone (shape : BrickShape) (xz yz : Z) (r m : nat)
  (col row : nat) : Prop :=
  Z.of_nat row = yz + Z.of_nat r
  /\ xz <= Z.of_nat col < xz + Z.of_nat m
  /\ truthy (bitAt shape r (Z.to_nat (Z.of_nat col - xz))) = true.

(** The state after START_GAME, TICK_CLOCK, DOWN, UP when every draw is an
    I: the I brick stands upright through the floor, in rows 18 to 21. *)
Definition throughFloor : State :=
  mkState GamePhase.IN_PROGRESS (emptyCells 10 20) 0
    (FallingBrick.mk BrickType.I (Fin 3) (Fin 18) Orientation.RIGHT)
    [BrickType.I; BrickType.I; BrickType.I; BrickType.I] None.

(** A T brick lying on the floor of an empty board. *)
Definition landedT : State :=
  mkState GamePhase.IN_PROGRESS (emptyCells 10 20) 0
    (FallingBrick.mk BrickType.T (Fin 3) (Fin 17) Orientation.TWO)
    [BrickType.I; BrickType.L; BrickType.J; BrickType.O] None.

(** The state TICK_CLOCK returns when it locks the brick in: [grid] is the
    grid after the write, [front] the head of the queue, [rest] its tail and
    [b] the brick type drawn. *)
Definition lockedIn (s : State) (grid : Grid) (front : BrickType.t)
  (rest : Queue) (b : BrickType.t) : State :=
  let s2 :=
    mkState s.(phase) grid s.(score) (FallingBrick.new front)
      (take (QUEUE_SIZE - 1) rest ++ [b]) s.(completedRowAnimationFrame) in
  if hasCompletedRow grid then awardPoints (tickCompletedRowAnimation s2)
  else s2.

(** The number of complete rows of a grid. *)
Definition countCompleteRows (grid : Grid) : nat :=
  length (List.filter isCompleteRow grid).

(** [settled s]: unless an animation is running, the grid of [s] holds no
    complete row. *)
Definition settled (s : State) : Prop :=
  s.(completedRowAnimationFrame) = None -> hasCompletedRow s.(bricks) = false.

(** [freshGame] after one TICK_CLOCK: the I brick spawned and one row
    down. *)
Definition freshGameTicked : State :=
  mkState GamePhase.IN_PROGRESS (emptyCells 10 20) 0
    (FallingBrick.mk BrickType.I (Fin 3) (Fin (-3)) Orientation.SPAWN)
    [BrickType.I; BrickType.I; BrickType.I; BrickType.I] None.

(** Every occupied cell of the brick is in a column of the board. *)
Definition insideWalls (fb : FallingBrick.t) : Prop :=
  exists xz,
    fb.(FallingBrick.x) = Fin xz
    /\ forall r c : nat,
         truthy (bitAt (FallingBrick.shape fb) r c) = true ->
         0 <= xz + Z.of_nat c < GRID_WIDTH.

(** No occupied row of the brick is below the last row of the board. *)
Definition aboveFloor (fb : FallingBrick.t) : Prop :=
  exists yz,
    fb.(FallingBrick.y) = Fin yz
    /\ forall r : nat,
         isEmptyBitGridRow (FallingBrick.shape fb) r = false ->
         yz + Z.of_nat r < GRID_HEIGHT.

(** The brick does not overlap a cell that is not empty. *)
Definition clearOf (grid : Grid) (fb : FallingBrick.t) : Prop :=
  collision grid (FallingBrick.shape fb) fb.(FallingBrick.x)
    fb.(FallingBrick.y) = false.

(** [brickAtTop] after a hard drop on an empty board. *)
Definition brickAtBottom : FallingBrick.t :=
  FallingBrick.mk BrickType.T (Fin 3) (Fin 18) Orientation.SPAWN.

(** A T brick wholly above the board. *)
Definition brickAboveBoard : FallingBrick.t :=
  FallingBrick.mk BrickType.T (Fin 3) (Fin (-3)) Orientation.RIGHT.

(** A horizontal I brick lying on the floor in columns 3 to 6, in the gap
    of an otherwise full bottom row. *)
Definition almostComplete : State :=
  mkState GamePhase.IN_PROGRESS
    (replicate 19 (emptyRow 10)
     ++ [replicate 3 (brick BrickType.O) ++ replicate 4 emptyCell
         ++ replicate 3 (brick BrickType.O)])
    0 (FallingBrick.mk BrickType.I (Fin 3) (Fin 18) Orientation.SPAWN)
    [BrickType.I; BrickType.L; BrickType.J; BrickType.O] None.


(** A T brick pushed against the left wall above an empty board, as left by
    START_GAME, TICK_CLOCK, UP, LEFT, LEFT, LEFT, LEFT, UP. *)
Definition brickInWall : FallingBrick.t :=
  FallingBrick.mk BrickType.T (Fin (-1)) (Fin (-2)) Orientation.TWO.

Definition allT : nat -> BrickType.t := fun _ => BrickType.T.

(** * Properties *)

(** ** Cell emptiness at the borders of the board *)

Lemma gridRow_outside (grid : Grid) (y : num) :
  length grid = Z.to_nat GRID_HEIGHT ->
  ~ inRange 0 GRID_HEIGHT y -> gridRow grid y = None.
Proof.
  intros Hlen Hout. destruct y as [|z]; simpl; [reflexivity|].
  destruct (Z.ltb_spec z 0) as [Hneg|Hpos]; [reflexivity|].
  apply lookup_ge_None. rewrite Hlen. simpl in Hout. lia.
Qed.

Lemma gridRow_inside (grid : Grid) (y : num) :
  boardShaped grid -> inRange 0 GRID_HEIGHT y ->
  exists row, gridRow grid y = Some row /\ length row = Z.to_nat GRID_WIDTH.
Proof.
  intros [Hlen Hrows] Hin. destruct y as [|z]; simpl in Hin; [contradiction|].
  simpl. destruct (Z.ltb_spec z 0) as [Hneg|Hpos]; [lia|].
  destruct (lookup_lt_is_Some_2 grid (Z.to_nat z)) as [row Hrow].
  { rewrite Hlen. lia. }
  exists row. split; [exact Hrow|].
  rewrite Forall_lookup in Hrows. exact (Hrows _ _ Hrow).
Qed.

Lemma rowCell_outside (row : list Cell) (x : num) :
  length row = Z.to_nat GRID_WIDTH ->
  ~ inRange 0 GRID_WIDTH x -> rowCell row x = None.
Proof.
  intros Hlen Hout. destruct x as [|z]; simpl; [reflexivity|].
  destruct (Z.ltb_spec z 0) as [Hneg|Hpos]; [reflexivity|].
  rewrite (proj2 (lookup_ge_None row (Z.to_nat z))); [reflexivity|].
  rewrite Hlen. simpl in Hout. lia.
Qed.

Lemma isEmptyCell_row_outside (grid : Grid) (x y : num) :
  length grid = Z.to_nat GRID_HEIGHT ->
  ~ inRange 0 GRID_HEIGHT y -> isEmptyCell grid x y = true.
Proof.
  intros Hlen Hout. unfold isEmptyCell.
  rewrite (gridRow_outside grid y Hlen Hout). reflexivity.
Qed.

Lemma existsb_false_all {A : Type} (f : A -> bool) (l : list A) :
  (forall a, In a l -> f a = false) -> existsb f l = false.
Proof.
  induction l as [|a l IH]; intros Hall; simpl; [reflexivity|].
  rewrite Hall by (left; reflexivity). simpl.
  apply IH. intros b Hb. apply Hall. right. exact Hb.
Qed.

(** C10: on a board of 20 rows of 10 cells, [isEmptyCell] is true at every
    row index outside 0..19 whatever the column (also at [-Infinity]), and
    false at a row index inside 0..19 when the column is outside 0..9; hence
    [collision] reports nothing for a shape placed wholly above or wholly
    below the board, and it reports a hit for an occupied shape cell that
    lies on a board row beyond a side wall. *)
Theorem isEmptyCell_boundary (grid : Grid) :
  boardShaped grid ->
  (forall x y, ~ inRange 0 GRID_HEIGHT y -> isEmptyCell grid x y = true)
  /\ (forall x y, inRange 0 GRID_HEIGHT y -> ~ inRange 0 GRID_WIDTH x ->
        isEmptyCell grid x y = false)
  /\ (forall shape x0 y0,
        GRID_HEIGHT <= y0 \/ y0 + Z.of_nat (shapeSize shape) <= 0 ->
        collision grid shape x0 (Fin y0) = false)
  /\ (forall shape x0 y0 r c,
        (r < shapeSize shape)%nat -> (c < shapeSize shape)%nat ->
        truthy (bitAt shape r c) = true ->
        inRange 0 GRID_HEIGHT (nadd y0 (Z.of_nat r)) ->
        ~ inRange 0 GRID_WIDTH (nadd x0 (Z.of_nat c)) ->
        collision grid shape x0 y0 = true).
Proof.
  intros Hboard. pose proof Hboard as [Hlen Hrows].
  assert (Hside : forall x y, inRange 0 GRID_HEIGHT y ->
            ~ inRange 0 GRID_WIDTH x -> isEmptyCell grid x y = false).
  { intros x y Hy Hx. unfold isEmptyCell.
    destruct (gridRow_inside grid y Hboard Hy) as (row & -> & Hrow).
    rewrite (rowCell_outside row x Hrow Hx). reflexivity. }
  split; [|split; [|split]].
  - intros x y Hy. apply isEmptyCell_row_outside; assumption.
  - exact Hside.
  - intros shape x0 y0 Hy0. unfold collision.
    apply existsb_false_all. intros r Hr.
    apply existsb_false_all. intros c Hc.
    apply in_seq in Hr. rewrite isEmptyCell_row_outside.
    + apply andb_false_r.
    + exact Hlen.
    + simpl. unfold shapeSize in *. unfold GRID_HEIGHT in *. lia.
  - intros shape x0 y0 r c Hr Hc Hbit Hy Hx. unfold collision.
    apply existsb_exists. exists r. split; [apply in_seq; lia|].
    apply existsb_exists. exists c. split; [apply in_seq; lia|].
    rewrite Hbit, (Hside _ _ Hy Hx). reflexivity.
Qed.

Lemma emptyCells_boardShaped :
  boardShaped (emptyCells (Z.to_nat GRID_WIDTH) (Z.to_nat GRID_HEIGHT)).
Proof.
  split; [reflexivity|]. apply Forall_forall. intros row Hin.
  apply elem_of_replicate in Hin as [-> _]. reflexivity.
Qed.

Lemma isEmptyCell_boundary_witness :
  isEmptyCell (emptyCells (Z.to_nat GRID_WIDTH) (Z.to_nat GRID_HEIGHT))
    (Fin 3) (Fin 20) = true
  /\ isEmptyCell (emptyCells (Z.to_nat GRID_WIDTH) (Z.to_nat GRID_HEIGHT))
       (Fin 10) (Fin 19) = false.
Proof.
  destruct (isEmptyCell_boundary _ emptyCells_boardShaped)
    as (Hrow & Hcol & _).
  split.
  - apply Hrow. simpl. unfold GRID_HEIGHT. lia.
  - apply Hcol; simpl; unfold GRID_HEIGHT, GRID_WIDTH; lia.
Defined.

(** ** Removing completed rows *)

Lemma foldl_push_incomplete (l acc : Grid) :
  foldl (fun acc row => if isCompleteRow row then acc else acc ++ [row]) acc l
  = acc ++ List.filter isIncompleteRow l.
Proof.
  revert acc. induction l as [|row l IH]; intros acc; simpl.
  - symmetry. apply app_nil_r.
  - rewrite IH. unfold isIncompleteRow.
    destruct (isCompleteRow row); simpl; [reflexivity|].
    rewrite <- app_assoc. reflexivity.
Qed.

Lemma foldl_push_const {B : Type} (row : list Cell) (l : list B) (acc : Grid) :
  foldl (fun acc _ => acc ++ [row]) acc l = acc ++ replicate (length l) row.
Proof.
  revert acc. induction l as [|b l IH]; intros acc; simpl.
  - symmetry. apply app_nil_r.
  - rewrite IH, <- app_assoc. reflexivity.
Qed.

Lemma foldl_push_all (l acc : Grid) :
  foldl (fun acc row => acc ++ [row]) acc l = acc ++ l.
Proof.
  revert acc. induction l as [|row l IH]; intros acc; simpl.
  - symmetry. apply app_nil_r.
  - rewrite IH, <- app_assoc. reflexivity.
Qed.

Lemma removeCompletedRowsFromGrid_eq (grid : Grid) :
  removeCompletedRowsFromGrid grid
  = replicate
      (Z.to_nat GRID_HEIGHT - length (List.filter isIncompleteRow grid))
      (emptyRow (Z.to_nat GRID_WIDTH))
    ++ List.filter isIncompleteRow grid.
Proof.
  unfold removeCompletedRowsFromGrid.
  rewrite foldl_push_incomplete. simpl app.
  rewrite foldl_push_all, foldl_push_const, length_seq. simpl app.
  f_equal. f_equal. unfold GRID_HEIGHT. lia.
Qed.

Lemma filter_incomplete_length (grid : Grid) :
  (length (List.filter isIncompleteRow grid) <= length grid)%nat.
Proof.
  induction grid as [|row grid IH]; simpl; [lia|].
  destruct (isIncompleteRow row); simpl; lia.
Qed.

Lemma filter_incomplete_all (grid : Grid) :
  hasCompletedRow grid = false -> List.filter isIncompleteRow grid = grid.
Proof.
  unfold hasCompletedRow. induction grid as [|row grid IH]; simpl;
    [reflexivity|].
  intros H. apply orb_false_elim in H as [Hrow Hrest].
  unfold isIncompleteRow at 1. rewrite Hrow. simpl. f_equal. exact (IH Hrest).
Qed.

Lemma hasCompletedRow_app (g1 g2 : Grid) :
  hasCompletedRow (g1 ++ g2) = hasCompletedRow g1 || hasCompletedRow g2.
Proof. apply existsb_app. Qed.

Lemma hasCompletedRow_filter (grid : Grid) :
  hasCompletedRow (List.filter isIncompleteRow grid) = false.
Proof.
  apply existsb_false_all. intros row Hin.
  apply filter_In in Hin as [_ Hrow]. unfold isIncompleteRow in Hrow.
  destruct (isCompleteRow row); [discriminate|reflexivity].
Qed.

Lemma hasCompletedRow_padding (n : nat) :
  hasCompletedRow (replicate n (emptyRow (Z.to_nat GRID_WIDTH))) = false.
Proof.
  apply existsb_false_all. intros row Hin.
  apply list_elem_of_In, elem_of_replicate in Hin as [-> _]. reflexivity.
Qed.



(** ** The row-clear animation *)

Lemma hasCompletedRow_removed (grid : Grid) :
  hasCompletedRow (removeCompletedRowsFromGrid grid) = false.
Proof.
  rewrite removeCompletedRowsFromGrid_eq, hasCompletedRow_app.
  rewrite hasCompletedRow_padding, hasCompletedRow_filter. reflexivity.
Qed.

(** C5, as stated, fails on the code.  The tick that takes the counter from 5
    to the budget 6 keeps the counter present and leaves the complete row in
    the grid; the tick taken at counter 6 does not advance the counter by 1,
    it is the one that clears the counter and the rows. *)
Lemma tickClock_animation_counterexample :
  (exists s',
      tickClock (fun _ => BrickType.I) (animatingAt 5) 0%nat = Ok (s', 0%nat)
      /\ s'.(completedRowAnimationFrame) = Some ROW_ANIMATION_FRAMES
      /\ hasCompletedRow s'.(bricks) = true)
  /\ (exists s',
      tickClock (fun _ => BrickType.I) (animatingAt 6) 0%nat = Ok (s', 0%nat)
      /\ s'.(completedRowAnimationFrame) <> Some (6 + 1)).
Proof.
  split; eexists; (split; [vm_compute; reflexivity|]); simpl.
  - split; reflexivity.
  - discriminate.
Qed.

(** C5, amended: in an IN_PROGRESS state whose animation counter is present
    with value [n], TICK_CLOCK returns without drawing a random brick; when
    [n] is not 6 it sets the counter to [n + 1] and changes nothing else; when
    [n] is 6 it sets the counter to absent and replaces the grid by
    [removeCompletedRowsFromGrid] of it in the same transition, so that the
    emitted state has no complete row left. *)
Theorem tickClock_animation (draw : nat -> BrickType.t) (s : State) (n : Z)
  (k : nat) :
  s.(phase) = GamePhase.IN_PROGRESS ->
  s.(completedRowAnimationFrame) = Some n ->
  (n <> ROW_ANIMATION_FRAMES ->
   tickClock draw s k = Ok (setFrame s (Some (n + 1)), k))
  /\ (n = ROW_ANIMATION_FRAMES ->
      tickClock draw s k
      = Ok (setBricks (setFrame s None)
              (removeCompletedRowsFromGrid s.(bricks)), k))
  /\ (forall s' k',
        tickClock draw s k = Ok (s', k') ->
        s'.(completedRowAnimationFrame) = None ->
        n = ROW_ANIMATION_FRAMES /\ hasCompletedRow s'.(bricks) = false).
Proof.
  intros Hphase Hframe.
  assert (Hstep : tickClock draw s k
                  = if n =? ROW_ANIMATION_FRAMES
                    then Ok (setBricks (setFrame s None)
                               (removeCompletedRowsFromGrid s.(bricks)), k)
                    else Ok (setFrame s (Some (n + 1)), k)).
  { unfold tickClock, isRowAnimating, tickCompletedRowAnimation, nextFrame.
    rewrite Hphase, Hframe. simpl.
    destruct (n =? ROW_ANIMATION_FRAMES); reflexivity. }
  rewrite Hstep. clear Hstep.
  destruct (Z.eqb_spec n ROW_ANIMATION_FRAMES) as [Heq|Hne].
  - split; [intros Hne; contradiction|]. split; [reflexivity|].
    intros s' k' Hret _. injection Hret as <- <-. split; [exact Heq|].
    apply hasCompletedRow_removed.
  - split; [reflexivity|]. split; [intros Heq; contradiction|].
    intros s' k' Hret Hnone. injection Hret as <- <-. discriminate.
Qed.

Lemma tickClock_animation_witness :
  tickClock (fun _ => BrickType.I) (animatingAt 6) 0%nat
  = Ok (setBricks (setFrame (animatingAt 6) None)
          (removeCompletedRowsFromGrid oneCompleteRow), 0%nat).
Proof.
  apply (tickClock_animation (fun _ => BrickType.I) (animatingAt 6) 6 0%nat);
    reflexivity.
Defined.

(** ** Collision and the game-over test *)








(** The brick of the witness is met in play, over the empty grid. *)
Lemma brickInWall_reached :
  exists s : State,
    game allT 30
      [Action.START_GAME; Action.TICK_CLOCK; Action.UP; Action.LEFT;
       Action.LEFT; Action.LEFT; Action.LEFT; Action.UP] 0%nat
    = Ok (s, 10%nat)
    /\ s.(fallingBrick) = brickInWall
    /\ s.(bricks) = emptyCells 10 20.
Proof.
  eexists. split; [vm_compute; reflexivity|]. split; reflexivity.
Qed.

(** ** Hard drop *)

Lemma lower_0 (fb : FallingBrick.t) : lower fb 0 = fb.
Proof.
  destruct fb as [t x [|z] o]; unfold lower, FallingBrick.setY; simpl;
    [reflexivity|].
  rewrite Z.add_0_r. reflexivity.
Qed.

Lemma lower_lower (fb : FallingBrick.t) (i j : Z) :
  lower (lower fb i) j = lower fb (i + j).
Proof.
  destruct fb as [t x [|z] o]; unfold lower, FallingBrick.setY; simpl;
    [reflexivity|].
  rewrite Z.add_assoc. reflexivity.
Qed.

Lemma shape_lower (fb : FallingBrick.t) (j : Z) :
  FallingBrick.shape (lower fb j) = FallingBrick.shape fb.
Proof. reflexivity. Qed.

Lemma isUnspawned_lower (fb : FallingBrick.t) (j : Z) :
  FallingBrick.isUnspawned (lower fb j) = FallingBrick.isUnspawned fb.
Proof. reflexivity. Qed.

Lemma fastFallLoop_stable (fb : FallingBrick.t) (grid : Grid) (n : nat) :
  FallingBrick.canFall fb grid = false ->
  FallingBrick.fastFallLoop (Datatypes.S n) fb grid = Ok fb.
Proof. intros H. simpl. rewrite H. reflexivity. Qed.

(** What the loop returns, when it returns: the first position, going down
    from the current one, at which [canFall] is false. *)
Lemma fastFallLoop_sound (n : nat) :
  forall (fb fb' : FallingBrick.t) (grid : Grid),
    FallingBrick.fastFallLoop n fb grid = Ok fb' ->
    exists j : nat,
      fb' = lower fb (Z.of_nat j)
      /\ FallingBrick.canFall fb' grid = false
      /\ forall i : nat, (i < j)%nat ->
           FallingBrick.canFall (lower fb (Z.of_nat i)) grid = true.
Proof.
  induction n as [|n IH]; intros fb fb' grid Hrun; simpl in Hrun;
    [discriminate|].
  destruct (FallingBrick.canFall fb grid) eqn:Hfall.
  - change (FallingBrick.setY fb (nadd (FallingBrick.y fb) 1))
      with (lower fb 1) in Hrun.
    destruct (IH _ _ _ Hrun) as (j & -> & Hstop & Hbefore).
    exists (Datatypes.S j). split; [|split].
    + rewrite lower_lower. f_equal. lia.
    + exact Hstop.
    + intros [|i] Hi; [rewrite lower_0; exact Hfall|].
      specialize (Hbefore i ltac:(lia)). rewrite lower_lower in Hbefore.
      replace (Z.of_nat (Datatypes.S i)) with (1 + Z.of_nat i) by lia.
      exact Hbefore.
  - injection Hrun as <-. exists 0%nat. split; [|split].
    + symmetry. apply lower_0.
    + exact Hfall.
    + intros i Hi. lia.
Qed.

Lemma fastFallLoop_more_fuel (n : nat) :
  forall (fb fb' : FallingBrick.t) (grid : Grid) (m : nat),
    FallingBrick.fastFallLoop n fb grid = Ok fb' -> (n <= m)%nat ->
    FallingBrick.fastFallLoop m fb grid = Ok fb'.
Proof.
  induction n as [|n IH]; intros fb fb' grid m Hrun Hle; simpl in Hrun;
    [discriminate|].
  destruct m as [|m]; [lia|]. simpl.
  destruct (FallingBrick.canFall fb grid); [|exact Hrun].
  apply (IH _ _ _ _ Hrun). lia.
Qed.

Lemma isTouchingFloor_at_floor (fb : FallingBrick.t) :
  restsAboveFloor fb 0 -> FallingBrick.isTouchingFloor fb = true.
Proof.
  intros (yz & r & Hy & Hr & Hrow & Hfloor).
  unfold FallingBrick.isTouchingFloor. apply existsb_exists.
  exists r. split; [apply in_rev; rewrite rev_involutive; apply in_seq; lia|].
  rewrite Hrow, Hy. simpl. apply Z.eqb_eq. lia.
Qed.

Lemma restsAboveFloor_lower (fb : FallingBrick.t) (d : nat) :
  restsAboveFloor fb (Datatypes.S d) -> restsAboveFloor (lower fb 1) d.
Proof.
  intros (yz & r & Hy & Hr & Hrow & Hfloor).
  exists (yz + 1), r. rewrite shape_lower.
  repeat split; try assumption; [|lia].
  unfold lower. simpl. rewrite Hy. reflexivity.
Qed.

(** The loop returns as soon as it is given more fuel than the distance of
    an occupied row to the floor. *)
Lemma fastFallLoop_terminates (d : nat) :
  forall (fb : FallingBrick.t) (grid : Grid) (n : nat),
    restsAboveFloor fb d -> (d < n)%nat ->
    exists fb', FallingBrick.fastFallLoop n fb grid = Ok fb'.
Proof.
  induction d as [|d IH]; intros fb grid n Hrest Hfuel;
    (destruct n as [|n]; [lia|]); simpl.
  - unfold FallingBrick.canFall.
    rewrite (isTouchingFloor_at_floor fb Hrest). simpl. eexists. reflexivity.
  - destruct (FallingBrick.canFall fb grid); [|eexists; reflexivity].
    apply (IH (lower fb 1)); [apply restsAboveFloor_lower; exact Hrest|lia].
Qed.

Lemma occupied_row_not_empty (shape : BrickShape) (r c : nat) :
  truthy (bitAt shape r c) = true -> isEmptyBitGridRow shape r = false.
Proof.
  unfold bitAt, isEmptyBitGridRow. destruct (shape !! r) as [row|];
    [|discriminate].
  destruct (row !! c) as [b|] eqn:Hc; [|discriminate]. simpl. intros Hb.
  apply not_true_is_false. intros Hall.
  rewrite forallb_forall in Hall.
  specialize (Hall b). rewrite Hb in Hall. simpl in Hall.
  assert (In b row) by (apply list_elem_of_In; eapply list_elem_of_lookup_2;
                        exact Hc).
  specialize (Hall H). discriminate.
Qed.

Lemma canFall_sunk (fb : FallingBrick.t) (grid : Grid) :
  (length grid <= Z.to_nat GRID_HEIGHT)%nat -> sunkBelowFloor fb ->
  FallingBrick.canFall fb grid = true.
Proof.
  intros Hlen (yz & Hy & Hrows). unfold FallingBrick.canFall.
  apply andb_true_iff. split; apply negb_true_iff.
  - unfold FallingBrick.isTouchingFloor. apply existsb_false_all.
    intros r _. destruct (isEmptyBitGridRow _ r) eqn:Hrow; [reflexivity|].
    specialize (Hrows r Hrow). rewrite Hy. simpl. apply Z.eqb_neq. lia.
  - unfold FallingBrick.isOnTopOfBricks, collision.
    apply existsb_false_all. intros r _.
    apply existsb_false_all. intros c _.
    destruct (truthy (bitAt _ r c)) eqn:Hbit; [|reflexivity].
    apply occupied_row_not_empty, Hrows in Hbit. simpl.
    apply negb_false_iff. unfold isEmptyCell. rewrite Hy. simpl.
    destruct (Z.ltb_spec (yz + 1 + Z.of_nat r) 0); [reflexivity|].
    rewrite (proj2 (lookup_ge_None grid _)); [reflexivity|].
    unfold GRID_HEIGHT in *. lia.
Qed.

Lemma sunkBelowFloor_lower (fb : FallingBrick.t) :
  sunkBelowFloor fb -> sunkBelowFloor (lower fb 1).
Proof.
  intros (yz & Hy & Hrows). exists (yz + 1). split.
  - unfold lower. simpl. rewrite Hy. reflexivity.
  - intros r Hrow. rewrite shape_lower in Hrow.
    specialize (Hrows r Hrow). lia.
Qed.

(** On such a brick the loop of [fastFall] never exits. *)
Lemma fastFallLoop_diverges (n : nat) :
  forall (fb : FallingBrick.t) (grid : Grid),
    (length grid <= Z.to_nat GRID_HEIGHT)%nat -> sunkBelowFloor fb ->
    FallingBrick.fastFallLoop n fb grid = OutOfFuel.
Proof.
  induction n as [|n IH]; intros fb grid Hlen Hsunk; simpl; [reflexivity|].
  rewrite (canFall_sunk fb grid Hlen Hsunk).
  apply (IH (lower fb 1) grid Hlen). apply sunkBelowFloor_lower. exact Hsunk.
Qed.

Lemma fastFall_stable (fb : FallingBrick.t) (grid : Grid) (n : nat) :
  FallingBrick.isUnspawned fb = true \/ FallingBrick.canFall fb grid = false ->
  FallingBrick.fastFall (Datatypes.S n) fb grid = Ok fb.
Proof.
  intros H. unfold FallingBrick.fastFall.
  destruct (FallingBrick.isUnspawned fb); [reflexivity|].
  destruct H as [H|H]; [discriminate|]. apply fastFallLoop_stable. exact H.
Qed.

Lemma fastFall_result (fb fb' : FallingBrick.t) (grid : Grid) (n : nat) :
  FallingBrick.fastFall n fb grid = Ok fb' ->
  FallingBrick.isUnspawned fb' = true \/ FallingBrick.canFall fb' grid = false.
Proof.
  unfold FallingBrick.fastFall.
  destruct (FallingBrick.isUnspawned fb) eqn:Hun; intros Hrun.
  - injection Hrun as <-. left. exact Hun.
  - right. destruct (fastFallLoop_sound _ _ _ _ Hrun) as (_ & _ & Hstop & _).
    exact Hstop.
Qed.

(** Where it returns, [fastFall] is idempotent: whatever the brick, the
    grid and the fuel, running it a second time on the result of a first run
    gives the outcome of the first run; and the first run does return for
    every brick that is unspawned or has an occupied row on or above the
    last row of the board. *)
Theorem fastFall_idempotent (fb : FallingBrick.t) (grid : Grid) (n m : nat) :
  rbind (FallingBrick.fastFall n fb grid)
    (fun fb1 => FallingBrick.fastFall (Datatypes.S m) fb1 grid)
  = FallingBrick.fastFall n fb grid
  /\ (forall d : nat,
        FallingBrick.isUnspawned fb = true \/ restsAboveFloor fb d ->
        (d < n)%nat ->
        exists fb1,
          FallingBrick.fastFall n fb grid = Ok fb1
          /\ FallingBrick.fastFall (Datatypes.S m) fb1 grid = Ok fb1).
Proof.
  split.
  - destruct (FallingBrick.fastFall n fb grid) as [fb1| |] eqn:Hrun;
      simpl; try reflexivity.
    apply fastFall_stable. exact (fastFall_result _ _ _ _ Hrun).
  - intros d Hfb Hfuel.
    assert (Hret : exists fb1, FallingBrick.fastFall n fb grid = Ok fb1).
    { unfold FallingBrick.fastFall.
      destruct (FallingBrick.isUnspawned fb); [eexists; reflexivity|].
      destruct Hfb as [Hun|Hrest]; [discriminate|].
      exact (fastFallLoop_terminates d fb grid n Hrest Hfuel). }
    destruct Hret as [fb1 Hrun]. exists fb1. split; [exact Hrun|].
    apply fastFall_stable. exact (fastFall_result _ _ _ _ Hrun).
Qed.

Lemma brickAtTop_rests : restsAboveFloor brickAtTop 18.
Proof.
  exists 0, 1%nat. repeat split; try reflexivity. simpl. lia.
Defined.

Lemma fastFall_idempotent_witness :
  exists fb1,
    FallingBrick.fastFall 19 brickAtTop (emptyCells 10 20) = Ok fb1
    /\ FallingBrick.fastFall 1 fb1 (emptyCells 10 20) = Ok fb1.
Proof.
  apply (proj2 (fastFall_idempotent brickAtTop (emptyCells 10 20) 19 0) 18%nat).
  - right. exact brickAtTop_rests.
  - lia.
Defined.

(** ** The DOWN action *)

Lemma sunkGame_sunk : sunkBelowFloor sunkGame.(fallingBrick).
Proof.
  exists 18. split; [reflexivity|]. intros r Hrow.
  destruct r as [|[|[|r]]]; try discriminate Hrow.
  - unfold GRID_HEIGHT. lia.
  - unfold GRID_HEIGHT. lia.
Qed.

Lemma sunkBelowFloor_lower_n (fb : FallingBrick.t) (j : nat) :
  sunkBelowFloor fb -> sunkBelowFloor (lower fb (Z.of_nat j)).
Proof.
  intros Hsunk. induction j as [|j IH]; [rewrite lower_0; exact Hsunk|].
  replace (Z.of_nat (Datatypes.S j)) with (Z.of_nat j + 1) by lia.
  rewrite <- lower_lower. apply sunkBelowFloor_lower. exact IH.
Qed.

(** C8 at a failing input, reached from START_GAME.  After START_GAME,
    TICK_CLOCK, DOWN, UP, UP with I bricks the falling brick is a flat I
    whose only occupied row is row 20, below the board.  From there
    [canFall] is true at every depth: the floor test asks for an occupied
    row exactly on row 19 and every cell below the board reads as empty.  So
    the loop of [fastFall] never exits, whatever the fuel: one application
    yields no position, and neither do two. *)
Theorem fastFall_hangs_below_floor :
  game allI 30
    [Action.START_GAME; Action.TICK_CLOCK; Action.DOWN; Action.UP;
     Action.UP] 0%nat = Ok (sunkGame, 10%nat)
  /\ FallingBrick.isUnspawned sunkGame.(fallingBrick) = false
  /\ (forall j : nat,
        FallingBrick.canFall (lower sunkGame.(fallingBrick) (Z.of_nat j))
          sunkGame.(bricks) = true)
  /\ (forall fuel,
        FallingBrick.fastFall fuel sunkGame.(fallingBrick) sunkGame.(bricks)
        = OutOfFuel)
  /\ (forall fuel fuel',
        rbind (FallingBrick.fastFall fuel sunkGame.(fallingBrick)
                 sunkGame.(bricks))
          (fun fb1 => FallingBrick.fastFall fuel' fb1 sunkGame.(bricks))
        = OutOfFuel).
Proof.
  assert (Hlen : (length (bricks sunkGame) <= Z.to_nat GRID_HEIGHT)%nat)
    by (vm_compute; lia).
  assert (Hhang : forall fuel,
            FallingBrick.fastFall fuel sunkGame.(fallingBrick)
              sunkGame.(bricks) = OutOfFuel).
  { intros fuel. unfold FallingBrick.fastFall.
    change (FallingBrick.isUnspawned (fallingBrick sunkGame)) with false.
    cbv iota. exact (fastFallLoop_diverges fuel _ _ Hlen sunkGame_sunk). }
  split; [vm_compute; reflexivity|]. split; [reflexivity|]. split; [|split].
  - intros j. apply canFall_sunk; [exact Hlen|].
    apply sunkBelowFloor_lower_n. exact sunkGame_sunk.
  - exact Hhang.
  - intros fuel fuel'. rewrite Hhang. reflexivity.
Qed.

(** In that state the DOWN action never returns either. *)
Lemma down_hangs_below_floor (fuel : nat) :
  handleActions allI fuel sunkGame Action.DOWN 10%nat = OutOfFuel.
Proof.
  unfold handleActions, bind, lift, FallingBrick.fastFall.
  change (FallingBrick.isUnspawned (fallingBrick sunkGame)) with false.
  cbv iota.
  rewrite (fastFallLoop_diverges fuel _ (bricks sunkGame));
    [reflexivity| |exact sunkGame_sunk].
  vm_compute. lia.
Qed.

(** C7, as stated, fails on the code in the IN_PROGRESS state that
    START_GAME returns: the falling brick is unspawned, DOWN returns the
    state unchanged, and the brick has not been moved to a position where
    [canFall] is false, since [canFall] is true of it. *)
Lemma down_counterexample :
  game allI 30 [Action.START_GAME] 0%nat = Ok (freshGame, 10%nat)
  /\ freshGame.(phase) = GamePhase.IN_PROGRESS
  /\ handleActions allI 30 freshGame Action.DOWN 10%nat
     = Ok (freshGame, 10%nat)
  /\ FallingBrick.canFall freshGame.(fallingBrick) freshGame.(bricks) = true.
Proof. repeat split; vm_compute; reflexivity. Qed.

(** C7, amended: in an IN_PROGRESS state whose falling brick is unspawned,
    DOWN returns the state unchanged.  In an IN_PROGRESS state whose falling
    brick is spawned and has an occupied row on or above the last row of the
    board, DOWN returns and only changes the falling brick's y position,
    moving the brick down to the first position, from its current one, at
    which [canFall] is false: it draws no random brick, writes no cell into
    the grid and leaves grid, score, queue, phase,
    completedRowAnimationFrame and the brick's type, x and orientation
    unchanged.  (Locking into the grid is left to TICK_CLOCK.) *)
Theorem down_moves_only_y (draw : nat -> BrickType.t) (fuel : nat)
  (s : State) (k : nat) :
  s.(phase) = GamePhase.IN_PROGRESS ->
  let fb := s.(fallingBrick) in
  (FallingBrick.isUnspawned fb = true ->
   handleActions draw fuel s Action.DOWN k = Ok (s, k))
  /\ (forall d : nat,
        FallingBrick.isUnspawned fb = false -> restsAboveFloor fb d ->
        (d < fuel)%nat ->
        exists (j : nat) (s' : State),
          handleActions draw fuel s Action.DOWN k = Ok (s', k)
          /\ s'.(fallingBrick) = lower fb (Z.of_nat j)
          /\ FallingBrick.canFall (lower fb (Z.of_nat j)) s.(bricks) = false
          /\ (forall i : nat, (i < j)%nat ->
                FallingBrick.canFall (lower fb (Z.of_nat i)) s.(bricks)
                = true)
          /\ s'.(bricks) = s.(bricks) /\ s'.(score) = s.(score)
          /\ s'.(queue) = s.(queue) /\ s'.(phase) = s.(phase)
          /\ s'.(completedRowAnimationFrame) = s.(completedRowAnimationFrame)
          /\ s'.(fallingBrick).(FallingBrick.type) = fb.(FallingBrick.type)
          /\ s'.(fallingBrick).(FallingBrick.x) = fb.(FallingBrick.x)
          /\ s'.(fallingBrick).(FallingBrick.orientation)
             = fb.(FallingBrick.orientation)).
Proof.
  intros _ fb. subst fb. unfold handleActions, bind, lift, ret. split.
  - intros Hun. unfold FallingBrick.fastFall. rewrite Hun.
    destruct s; reflexivity.
  - intros d Hun Hrest Hfuel. unfold FallingBrick.fastFall. rewrite Hun.
    destruct (fastFallLoop_terminates d _ (bricks s) fuel Hrest Hfuel)
      as [fb' Hrun].
    rewrite Hrun.
    destruct (fastFallLoop_sound _ _ _ _ Hrun) as (j & -> & Hstop & Hbefore).
    exists j. eexists. split; [reflexivity|]. repeat split; assumption.
Qed.

Lemma down_moves_only_y_witness :
  exists (j : nat) (s' : State),
    handleActions allI 19 dropFromTop Action.DOWN 0%nat = Ok (s', 0%nat)
    /\ s'.(fallingBrick) = lower brickAtTop (Z.of_nat j)
    /\ FallingBrick.canFall (lower brickAtTop (Z.of_nat j))
         dropFromTop.(bricks) = false
    /\ (forall i : nat, (i < j)%nat ->
          FallingBrick.canFall (lower brickAtTop (Z.of_nat i))
            dropFromTop.(bricks) = true)
    /\ s'.(bricks) = dropFromTop.(bricks)
    /\ s'.(score) = dropFromTop.(score)
    /\ s'.(queue) = dropFromTop.(queue) /\ s'.(phase) = dropFromTop.(phase)
    /\ s'.(completedRowAnimationFrame)
       = dropFromTop.(completedRowAnimationFrame)
    /\ s'.(fallingBrick).(FallingBrick.type) = brickAtTop.(FallingBrick.type)
    /\ s'.(fallingBrick).(FallingBrick.x) = brickAtTop.(FallingBrick.x)
    /\ s'.(fallingBrick).(FallingBrick.orientation)
       = brickAtTop.(FallingBrick.orientation).
Proof.
  apply (proj2 (down_moves_only_y allI 19 dropFromTop 0%nat eq_refl) 18%nat).
  - reflexivity.
  - exact brickAtTop_rests.
  - lia.
Defined.

(** ** The queue *)

Lemma randomBrickTypes_length (draw : nat -> BrickType.t) (n : nat) :
  forall k, exists l,
    randomBrickTypes draw n k = Ok (l, (k + n)%nat) /\ length l = n.
Proof.
  induction n as [|n IH]; intros k; simpl.
  - exists []. unfold ret. rewrite Nat.add_0_r. split; reflexivity.
  - destruct (IH (Datatypes.S k)) as (l & Hl & Hlen).
    exists (draw k :: l). unfold bind, randomBrickType, ret. rewrite Hl.
    split; [|simpl; rewrite Hlen; reflexivity].
    do 2 f_equal. lia.
Qed.

Lemma initialState_returns (draw : nat -> BrickType.t) (k : nat) :
  exists s,
    initialState draw k = Ok (s, (k + 5)%nat)
    /\ length s.(queue) = QUEUE_SIZE
    /\ s.(phase) = GamePhase.UNSTARTED
    /\ FallingBrick.isUnspawned s.(fallingBrick) = true.
Proof.
  unfold initialState, bind, randomBrickType, ret.
  destruct (randomBrickTypes_length draw QUEUE_SIZE (Datatypes.S k))
    as (q & Hq & Hlen).
  rewrite Hq.
  replace (Datatypes.S k + QUEUE_SIZE)%nat with (k + 5)%nat
    by (unfold QUEUE_SIZE; lia).
  eexists. split; [reflexivity|]. repeat split. exact Hlen.
Qed.

Lemma writeFallingBrickToGrid_frame (s s' : State) :
  writeFallingBrickToGrid s = Ok s' -> exists grid, s' = setBricks s grid.
Proof.
  unfold writeFallingBrickToGrid. destruct (foldM _ _ _) as [grid| |];
    simpl; intros H; try discriminate.
  injection H as <-. exists grid. reflexivity.
Qed.

(** Effect of TICK_CLOCK on the queue: either the queue is untouched and
    nothing is drawn, or its front has become the new, unspawned falling
    brick and one draw has been appended. *)
Lemma tickClock_queue (draw : nat -> BrickType.t) (s s' : State) (k k' : nat) :
  tickClock draw s k = Ok (s', k') ->
  (s'.(queue) = s.(queue) /\ k' = k)
  \/ (exists front rest,
        s.(queue) = front :: rest
        /\ s'.(queue) = take (QUEUE_SIZE - 1) rest ++ [draw k]
        /\ s'.(fallingBrick) = FallingBrick.new front
        /\ k' = Datatypes.S k
        /\ locksIn s).
Proof.
  unfold tickClock, ret.
  destruct (GamePhase.eqb (phase s) GamePhase.IN_PROGRESS) eqn:Hphase; simpl;
    [|intros H; injection H as <- <-; left; split; reflexivity].
  unfold isRowAnimating at 1.
  destruct (completedRowAnimationFrame s) as [n|] eqn:Hframe.
  { destruct (isRowAnimating _); intros H; injection H as <- <-;
      left; split; reflexivity. }
  assert (Hst : (if FallingBrick.isUnspawned (fallingBrick s)
                 then setFallingBrick s (FallingBrick.spawn (fallingBrick s))
                 else s)
                = setFallingBrick s (spawned (fallingBrick s))).
  { unfold spawned. destruct (FallingBrick.isUnspawned _); [reflexivity|].
    destruct s; reflexivity. }
  rewrite Hst. clear Hst. cbn [fallingBrick bricks setFallingBrick].
  unfold FallingBrick.tickGravity.
  destruct (FallingBrick.canFall (spawned (fallingBrick s)) (bricks s))
    eqn:Hfall; simpl.
  { intros H; injection H as <- <-; left; split; reflexivity. }
  destruct (FallingBrick.gameOver (spawned (fallingBrick s)) (bricks s))
    eqn:Hover.
  { intros H; injection H as <- <-; left; split; reflexivity. }
  unfold bind, lift.
  destruct (writeFallingBrickToGrid _) as [s1| |] eqn:Hwrite;
    try discriminate.
  apply writeFallingBrickToGrid_frame in Hwrite as [grid ->].
  unfold dequeueNextBrick, bind, randomBrickType, lift, ret.
  cbn [queue bricks setBricks setFallingBrick].
  destruct (queue s) as [|front rest] eqn:Hqueue; [discriminate|].
  intros Hret. right. exists front, rest.
  assert (Hlock : locksIn s).
  { repeat split; try assumption.
    destruct (phase s); first [discriminate|reflexivity]. }
  revert Hret. cbn [bricks].
  destruct (hasCompletedRow grid); cbn; intros Hret; injection Hret as <- <-;
    repeat split; try reflexivity; apply Hlock.
Qed.

(** C9: the queue has 4 entries in the initial state and after every
    reducer action that returns; the dequeue step makes the front of the
    queue the type of the new falling brick (a fresh brick of that type,
    unspawned, in orientation SPAWN), keeps the other three entries in order
    and appends one random brick type; and a TICK_CLOCK that locks the
    landed brick in performs exactly this step. *)
Theorem queue_invariant (draw : nat -> BrickType.t) :
  (forall k, exists s,
      initialState draw k = Ok (s, (k + 5)%nat)
      /\ length s.(queue) = QUEUE_SIZE)
  /\ (forall fuel s a k s' k',
        length s.(queue) = QUEUE_SIZE ->
        handleActions draw fuel s a k = Ok (s', k') ->
        length s'.(queue) = QUEUE_SIZE)
  /\ (forall s k a b c d,
        s.(queue) = [a; b; c; d] ->
        exists s',
          dequeueNextBrick draw s k = Ok (s', Datatypes.S k)
          /\ s'.(queue) = [b; c; d; draw k]
          /\ s'.(fallingBrick)
             = FallingBrick.mk a UNSPAWNED_POS UNSPAWNED_POS Orientation.SPAWN
          /\ s'.(bricks) = s.(bricks) /\ s'.(score) = s.(score)
          /\ s'.(phase) = s.(phase))
  /\ (forall s k a b c d s1,
        locksIn s -> s.(queue) = [a; b; c; d] ->
        writeFallingBrickToGrid
          (setFallingBrick s (spawned s.(fallingBrick))) = Ok s1 ->
        exists s',
          tickClock draw s k = Ok (s', Datatypes.S k)
          /\ s'.(queue) = [b; c; d; draw k]
          /\ s'.(fallingBrick)
             = FallingBrick.mk a UNSPAWNED_POS UNSPAWNED_POS Orientation.SPAWN).
Proof.
  split; [|split; [|split]].
  - intros k. destruct (initialState_returns draw k) as (s & Hs & Hlen & _).
    exists s. split; assumption.
  - intros fuel s a k s' k' Hlen Hstep. destruct a; simpl in Hstep.
    + apply tickClock_queue in Hstep
        as [[-> _]|(front & rest & Hq & -> & _)]; [exact Hlen|].
      rewrite Hq in Hlen. simpl in Hlen.
      rewrite length_app, length_take. unfold QUEUE_SIZE in *.
      simpl length. lia.
    + unfold bind in Hstep.
      destruct (initialState_returns draw k) as (s0 & Hs0 & Hlen0 & _).
      rewrite Hs0 in Hstep. injection Hstep as <- <-. exact Hlen0.
    + unfold bind, lift in Hstep.
      destruct (FallingBrick.fastFall _ _ _); try discriminate.
      injection Hstep as <- <-. exact Hlen.
    + injection Hstep as <- <-. exact Hlen.
    + injection Hstep as <- <-. exact Hlen.
    + injection Hstep as <- <-. exact Hlen.
  - intros s k a b c d Hq. unfold dequeueNextBrick, bind, randomBrickType, ret.
    rewrite Hq. eexists. split; [reflexivity|]. repeat split.
  - intros s k a b c d s1 (Hphase & Hframe & Hfall & Hover) Hq Hwrite.
    destruct (writeFallingBrickToGrid_frame _ _ Hwrite) as [grid ->].
    unfold tickClock, isRowAnimating. rewrite Hphase, Hframe. simpl.
    assert (Hst : (if FallingBrick.isUnspawned (fallingBrick s)
                   then setFallingBrick s (FallingBrick.spawn (fallingBrick s))
                   else s)
                  = setFallingBrick s (spawned (fallingBrick s))).
    { unfold spawned. destruct (FallingBrick.isUnspawned _); [reflexivity|].
      destruct s; reflexivity. }
    rewrite Hst. clear Hst. cbn [fallingBrick bricks setFallingBrick].
    unfold FallingBrick.tickGravity. rewrite Hfall. simpl. rewrite Hover.
    unfold bind, lift.
    change (setFallingBrick (setFallingBrick s (spawned (fallingBrick s)))
              (spawned (fallingBrick s)))
      with (setFallingBrick s (spawned (fallingBrick s))).
    rewrite Hwrite.
    unfold dequeueNextBrick, bind, randomBrickType, lift, ret.
    cbn [queue bricks setBricks setFallingBrick].
    rewrite Hq. cbn [bricks].
    destruct (hasCompletedRow grid); cbn; eexists;
      (split; [reflexivity|split; reflexivity]).
Qed.

Lemma landedT_locksIn : locksIn landedT.
Proof. repeat split; vm_compute; reflexivity. Defined.

Lemma queue_invariant_witness :
  exists s',
    tickClock allI landedT 0%nat = Ok (s', 1%nat)
    /\ s'.(queue) = [BrickType.L; BrickType.J; BrickType.O; BrickType.I]
    /\ s'.(fallingBrick)
       = FallingBrick.mk BrickType.I UNSPAWNED_POS UNSPAWNED_POS
           Orientation.SPAWN.
Proof.
  eapply (proj2 (proj2 (proj2 (queue_invariant allI))) landedT 0%nat
            BrickType.I BrickType.L BrickType.J BrickType.O).
  - exact landedT_locksIn.
  - reflexivity.
  - vm_compute. reflexivity.
Defined.

(** ** Rotation *)

(** [rotateShape] applied to a canonical shape already rotated to [o], as
    [rotate] does, turns it [o + 1] more times. *)
Lemma rotateShape_twice (t : BrickType.t) (o : Orientation.t) :
  rotateShape (rotateShape (brickTypeToShapeMap t) o) (incrementOrientation o)
  = rotateShape (brickTypeToShapeMap t)
      (Orientation.ofNat ((2 * Orientation.toNat o + 1) mod 4)).
Proof. destruct t, o; vm_compute; reflexivity. Qed.

(** On the canonical shapes [rotateShape] is the clockwise quarter turn
    iterated: cell (r, c) of the shape at the next orientation is cell
    (size - 1 - c, r) of the shape at the current one. *)
Lemma rotateShape_clockwise (t : BrickType.t) (o : Orientation.t) (r c : nat) :
  let canonical := brickTypeToShapeMap t in
  (r < shapeSize canonical)%nat -> (c < shapeSize canonical)%nat ->
  bitAt (rotateShape canonical (incrementOrientation o)) r c
  = bitAt (rotateShape canonical o) (shapeSize canonical - 1 - c) r.
Proof.
  intros canonical Hr Hc. subst canonical.
  destruct t, o; simpl in Hr, Hc;
    destruct r as [|[|[|[|r]]]]; try lia;
    destruct c as [|[|[|[|c]]]]; try lia; reflexivity.
Qed.

(** The loop over the kick offsets leaves the brick alone when the tested
    shape collides at every offset, and otherwise applies the first offset at
    which it does not. *)
Lemma tryKicks_all_collide (this : FallingBrick.t) (grid : Grid)
  (o : Orientation.t) (shape : BrickShape) (pairs : WallKickList) :
  (forall dx dy, In (dx, dy) pairs ->
     collision grid shape (nadd this.(FallingBrick.x) dx)
       (nadd this.(FallingBrick.y) dy) = true) ->
  FallingBrick.tryKicks this grid o shape pairs = this.
Proof.
  induction pairs as [|[dx dy] rest IH]; intros Hall; simpl; [reflexivity|].
  rewrite (Hall dx dy) by (left; reflexivity). simpl.
  apply IH. intros dx' dy' Hin. apply Hall. right. exact Hin.
Qed.

Lemma tryKicks_first_free (this : FallingBrick.t) (grid : Grid)
  (o : Orientation.t) (shape : BrickShape) (before after : WallKickList)
  (dx dy : Z) :
  (forall dx' dy', In (dx', dy') before ->
     collision grid shape (nadd this.(FallingBrick.x) dx')
       (nadd this.(FallingBrick.y) dy') = true) ->
  collision grid shape (nadd this.(FallingBrick.x) dx)
    (nadd this.(FallingBrick.y) dy) = false ->
  FallingBrick.tryKicks this grid o shape (before ++ (dx, dy) :: after)
  = FallingBrick.mk this.(FallingBrick.type) (nadd this.(FallingBrick.x) dx)
      (nadd this.(FallingBrick.y) dy) o.
Proof.
  induction before as [|[dx' dy'] rest IH]; intros Hall Hfree; simpl.
  - rewrite Hfree. reflexivity.
  - rewrite (Hall dx' dy') by (left; reflexivity). simpl.
    apply IH; [|exact Hfree]. intros dx'' dy'' Hin. apply Hall. right.
    exact Hin.
Qed.

(** What [rotate] does on a spawned brick that is not an O: the kick loop,
    over the table chosen by type at the current orientation, towards the
    next orientation, with the canonical shape turned [2 o + 1] times as the
    tested shape. *)
Lemma rotate_unfold (fb : FallingBrick.t) (grid : Grid) :
  FallingBrick.isUnspawned fb = false ->
  BrickType.eqb fb.(FallingBrick.type) BrickType.O = false ->
  FallingBrick.rotate fb grid
  = FallingBrick.tryKicks fb grid
      (incrementOrientation fb.(FallingBrick.orientation))
      (rotateShape (brickTypeToShapeMap fb.(FallingBrick.type))
         (Orientation.ofNat
            ((2 * Orientation.toNat fb.(FallingBrick.orientation) + 1)
             mod 4)))
      ((if BrickType.eqb fb.(FallingBrick.type) BrickType.I
        then iOrientationToWallKickMap
        else jlstzOrientationToWallKickMap) fb.(FallingBrick.orientation)).
Proof.
  intros Hun HO. unfold FallingBrick.rotate. rewrite Hun, HO.
  unfold FallingBrick.shape. rewrite Hun, HO. simpl orb. cbv iota.
  rewrite rotateShape_twice. reflexivity.
Qed.

(** C1 at a failing input.  [rotate] hands [rotateShape] the shape of the
    brick in its current orientation instead of the canonical shape, so that
    from orientation [o] the shape tested against the grid is the canonical
    shape turned [2 o + 1] times.  For the upright I brick next to the
    settled O, the shape of the next orientation collides at the first
    offset, and the first offset at which it is free is (-1, 0); the code
    tests another shape, accepts the offset (0, 0), and leaves the brick on
    top of a settled cell. *)
Theorem rotate_tests_turned_shape :
  (forall fb : FallingBrick.t,
      FallingBrick.isUnspawned fb = false ->
      BrickType.eqb fb.(FallingBrick.type) BrickType.O = false ->
      rotateShape (FallingBrick.shape fb)
        (incrementOrientation fb.(FallingBrick.orientation))
      = rotateShape (brickTypeToShapeMap fb.(FallingBrick.type))
          (Orientation.ofNat
             ((2 * Orientation.toNat fb.(FallingBrick.orientation) + 1)
              mod 4)))
  /\ collision gridWithSettledO
       (rotateShape (brickTypeToShapeMap BrickType.I) Orientation.TWO)
       (Fin 3) (Fin 16) = true
  /\ collision gridWithSettledO
       (rotateShape (brickTypeToShapeMap BrickType.I) Orientation.TWO)
       (Fin 2) (Fin 16) = false
  /\ rotateAsSpecified uprightI gridWithSettledO
     = FallingBrick.mk BrickType.I (Fin 2) (Fin 16) Orientation.TWO
  /\ FallingBrick.rotate uprightI gridWithSettledO
     = FallingBrick.mk BrickType.I (Fin 3) (Fin 16) Orientation.TWO
  /\ collision gridWithSettledO
       (FallingBrick.shape (FallingBrick.rotate uprightI gridWithSettledO))
       (FallingBrick.rotate uprightI gridWithSettledO).(FallingBrick.x)
       (FallingBrick.rotate uprightI gridWithSettledO).(FallingBrick.y)
     = true.
Proof.
  split.
  - intros fb Hun HO. unfold FallingBrick.shape. rewrite Hun, HO. simpl.
    apply rotateShape_twice.
  - repeat split; vm_compute; reflexivity.
Qed.

Lemma rotate_tests_turned_shape_witness :
  rotateShape (FallingBrick.shape uprightI)
    (incrementOrientation uprightI.(FallingBrick.orientation))
  = rotateShape (brickTypeToShapeMap BrickType.I) Orientation.LEFT.
Proof.
  apply (proj1 rotate_tests_turned_shape uprightI); reflexivity.
Defined.

(** The failing input of [rotate] is met in play: it is the state of the
    game below just before its last UP. *)
Lemma uprightI_reached :
  exists s : State,
    game firstO 30 (removelast playOntoSettledO) 0%nat = Ok (s, 11%nat)
    /\ s.(fallingBrick) = uprightI /\ s.(bricks) = gridWithSettledO.
Proof.
  eexists. split; [vm_compute; reflexivity|]. split; reflexivity.
Qed.

(** ** Lock-in *)

(** C3 at a failing input, reached from START_GAME.  After the actions above
    the I brick lies across row 18, columns 3 to 6, on top of the settled O
    cell of column 6; the next TICK_CLOCK finds the brick landed, locks it in
    and stamps I over that O cell. *)
Theorem lockIn_overwrites_settled_cell :
  exists s s1 s' : State,
    game firstO 30 playOntoSettledO 0%nat = Ok (s, 11%nat)
    /\ s.(phase) = GamePhase.IN_PROGRESS
    /\ s.(bricks) = gridWithSettledO
    /\ s.(fallingBrick)
       = FallingBrick.mk BrickType.I (Fin 3) (Fin 16) Orientation.TWO
    /\ cellAt s.(bricks) 6 18 = Some (brick BrickType.O)
    /\ writeFallingBrickToGrid s = Ok s1
    /\ cellAt s1.(bricks) 6 18 = Some (brick BrickType.I)
    /\ handleActions firstO 30 s Action.TICK_CLOCK 11%nat = Ok (s', 12%nat)
    /\ s'.(bricks) = s1.(bricks)
    /\ s'.(fallingBrick) = FallingBrick.new BrickType.I.
Proof.
  do 3 eexists.
  split; [vm_compute; reflexivity|].
  split; [reflexivity|]. split; [reflexivity|]. split; [reflexivity|].
  split; [reflexivity|].
  split; [vm_compute; reflexivity|]. split; [reflexivity|].
  split; [vm_compute; reflexivity|]. split; reflexivity.
Qed.

(** ** Actions after the game is over *)

(** C2 at a failing input, reached from START_GAME.  In the OVER state that
    ends this game the falling brick is spawned, at column 4, and the reducer
    hands LEFT to it without looking at the phase: it moves to column 3. *)
Theorem left_moves_brick_when_over :
  exists s s' : State,
    game allO 30 playUntilOver 0%nat = Ok (s, 20%nat)
    /\ s.(phase) = GamePhase.OVER
    /\ s.(fallingBrick)
       = FallingBrick.mk BrickType.O (Fin 4) (Fin (-2)) Orientation.SPAWN
    /\ handleActions allO 30 s Action.LEFT 20%nat = Ok (s', 20%nat)
    /\ s'.(fallingBrick)
       = FallingBrick.mk BrickType.O (Fin 3) (Fin (-2)) Orientation.SPAWN
    /\ s' <> s.
Proof.
  do 2 eexists.
  split; [vm_compute; reflexivity|].
  split; [reflexivity|]. split; [reflexivity|].
  split; [vm_compute; reflexivity|]. split; [reflexivity|].
  intros Heq. discriminate Heq.
Qed.

(** The part of C2 that the code does guarantee: on a state whose falling
    brick is unspawned, as in every UNSTARTED state the reducer produces,
    LEFT, RIGHT, UP and DOWN return the state unchanged. *)
Lemma unspawned_actions_noop (draw : nat -> BrickType.t) (fuel : nat)
  (s : State) (a : Action.t) (k : nat) :
  FallingBrick.isUnspawned s.(fallingBrick) = true ->
  a = Action.LEFT \/ a = Action.RIGHT \/ a = Action.UP \/ a = Action.DOWN ->
  handleActions draw fuel s a k = Ok (s, k).
Proof.
  intros Hun Ha.
  destruct Ha as [ -> | [ -> | [ -> | -> ] ] ]; unfold handleActions, bind, lift, ret,
    FallingBrick.moveLeft, FallingBrick.moveRight, FallingBrick.rotate,
    FallingBrick.fastFall; rewrite Hun; destruct s; reflexivity.
Qed.

(** * Further properties of the engine *)

Lemma setBit_length (cur : BrickShape) (r c : nat) (v : Bit) :
  length (setBit cur r c v) = length cur.
Proof. exact (length_alter _ cur r). Qed.

Lemma setBit_lookup_eq (cur : BrickShape) (r c : nat) (v : Bit) :
  setBit cur r c v !! r = (fun row => <[c := v]> row) <$> cur !! r.
Proof. exact (list_lookup_alter_eq _ cur r). Qed.

Lemma setBit_lookup_ne (cur : BrickShape) (r c : nat) (v : Bit) (i : nat) :
  r <> i -> setBit cur r c v !! i = cur !! i.
Proof. exact (list_lookup_alter_ne _ cur r i). Qed.

Lemma squareOf_row (size : nat) (b : BrickShape) (i : nat) (row : list Bit) :
  squareOf size b -> b !! i = Some row -> length row = size.
Proof.
  intros [_ Hrows] Hrow.
  exact (proj1 (Forall_lookup _ b) Hrows i row Hrow).
Qed.

Lemma squareOf_setBit (size : nat) (cur : BrickShape) (r c : nat) (v : Bit) :
  squareOf size cur -> squareOf size (setBit cur r c v).
Proof.
  intros Hsq. split; [rewrite setBit_length; exact (proj1 Hsq)|].
  apply Forall_lookup. intros i row Hrow.
  destruct (decide (r = i)) as [->|Hne].
  - rewrite setBit_lookup_eq in Hrow.
    destruct (cur !! i) as [row0|] eqn:H0; [|discriminate].
    injection Hrow as <-. rewrite length_insert.
    exact (squareOf_row _ _ _ _ Hsq H0).
  - rewrite setBit_lookup_ne in Hrow by exact Hne.
    exact (squareOf_row _ _ _ _ Hsq Hrow).
Qed.

Lemma bitAt_setBit (size : nat) (cur : BrickShape) (r c : nat) (v : Bit)
  (i j : nat) :
  squareOf size cur -> (r < size)%nat -> (c < size)%nat ->
  bitAt (setBit cur r c v) i j
  = if decide (i = r /\ j = c) then v else bitAt cur i j.
Proof.
  intros Hsq Hr Hc. unfold bitAt.
  destruct (decide (r = i)) as [<-|Hne].
  - rewrite setBit_lookup_eq.
    destruct (cur !! r) as [row|] eqn:Hrow.
    + simpl. pose proof (squareOf_row _ _ _ _ Hsq Hrow) as Hw.
      destruct (decide (c = j)) as [<-|Hcj].
      * rewrite list_lookup_insert_eq by (unfold Bit in *; lia). simpl.
        destruct (decide _) as [_|Hn]; [reflexivity|].
        exfalso. apply Hn. split; reflexivity.
      * rewrite list_lookup_insert_ne by exact Hcj.
        destruct (decide _) as [[_ ->]|_]; [contradiction|reflexivity].
    + apply lookup_ge_None in Hrow. destruct Hsq as [Hlen _]. lia.
  - rewrite setBit_lookup_ne by exact Hne.
    destruct (decide _) as [[-> _]|_]; [contradiction|reflexivity].
Qed.

Lemma foldl_snoc {A B : Type} (f : A -> B -> A) (a : A) (l : list B) (b : B) :
  foldl f a (l ++ [b]) = f (foldl f a l) b.
Proof. revert a. induction l as [|x l IH]; intros a; simpl; [reflexivity|apply IH]. Qed.

(** The inner loop of [rotateShape] for column [x] of [prev], after [m]
    iterations. *)
Lemma rotate_inner_loop (size : nat) (prev cur : BrickShape) (x m : nat) :
  squareOf size cur -> (x < size)%nat -> (m <= size)%nat ->
  let res := foldl (fun cur y => setBit cur x (size - 1 - y) (bitAt prev y x))
               cur (seq 0 m) in
  squareOf size res
  /\ forall i j, (j < size)%nat ->
       bitAt res i j
       = if decide (i = x /\ (size - 1 - j < m)%nat)
         then bitAt prev (size - 1 - j) x else bitAt cur i j.
Proof.
  intros Hsq Hx. induction m as [|m IH]; intros Hm res; subst res.
  - simpl. split; [exact Hsq|]. intros i j Hj.
    destruct (decide _) as [[_ H]|_]; [lia|reflexivity].
  - rewrite seq_S, foldl_snoc. simpl.
    destruct (IH ltac:(lia)) as [Hsq' Hbits].
    split; [apply squareOf_setBit; exact Hsq'|].
    intros i j Hj.
    rewrite (bitAt_setBit size) by (try assumption; lia).
    rewrite (Hbits i j Hj).
    destruct (decide (i = x /\ j = (size - 1 - m)%nat)) as [[-> ->]|Hn].
    + replace (size - 1 - (size - 1 - m))%nat with m by lia.
      destruct (decide _) as [_|Hn]; [reflexivity|]. exfalso. apply Hn. split; [reflexivity|lia].
    + destruct (decide (i = x /\ (size - 1 - j < m)%nat)) as [[-> H1]|H1];
        destruct (decide _) as [[H2 H3]|H2]; try reflexivity.
      * exfalso. apply H2. split; [reflexivity|lia].
      * exfalso. subst i. assert (j <> (size - 1 - m)%nat) by (intros ->; apply Hn; split; reflexivity).
        apply H1. split; [reflexivity|lia].
Qed.

Lemma rotatePass_spec (size : nat) (prev cur : BrickShape) :
  squareOf size cur ->
  squareOf size (rotatePass size prev cur)
  /\ forall i j, (i < size)%nat -> (j < size)%nat ->
       bitAt (rotatePass size prev cur) i j = bitAt prev (size - 1 - j) i.
Proof.
  intros Hsq. unfold rotatePass.
  assert (Hgen : forall m, (m <= size)%nat ->
            let res := foldl
                (fun cur x =>
                   foldl (fun cur y => setBit cur x (size - 1 - y) (bitAt prev y x))
                     cur (seq 0 size)) cur (seq 0 m) in
            squareOf size res
            /\ forall i j, (j < size)%nat ->
                 bitAt res i j
                 = if decide (i < m)%nat then bitAt prev (size - 1 - j) i
                   else bitAt cur i j).
  { induction m as [|m IH]; intros Hm res; subst res.
    - cbn [seq foldl]. split; [exact Hsq|]. intros i j Hj.
      case_decide; [lia|reflexivity].
    - rewrite seq_S, foldl_snoc. cbn [Nat.add].
      destruct (IH ltac:(lia)) as [Hsq' Hbits].
      destruct (rotate_inner_loop size prev _ m size Hsq' ltac:(lia) ltac:(lia))
        as [Hsq'' Hbits'].
      split; [exact Hsq''|]. intros i j Hj.
      rewrite (Hbits' i j Hj), (Hbits i j Hj).
      destruct (decide (i = m /\ (size - 1 - j < size)%nat)) as [[-> _]|Hn].
      + destruct (decide _); [reflexivity|lia].
      + destruct (decide (i < m)%nat); destruct (decide (i < S m)%nat); try reflexivity; lia. }
  destruct (Hgen size ltac:(lia)) as [Hsq' Hbits].
  split; [exact Hsq'|]. intros i j Hi Hj. rewrite (Hbits i j Hj).
  destruct (decide _); [reflexivity|lia].
Qed.

Lemma lookup_map {A B : Type} (f : A -> B) (l : list A) (i : nat) :
  map f l !! i = f <$> l !! i.
Proof.
  revert i. induction l as [|a l IH]; intros [|i]; simpl; try reflexivity.
  apply IH.
Qed.

Lemma copyBrickShape_square (b : BrickShape) :
  squareOf (shapeSize b) (copyBrickShape b).
Proof.
  unfold copyBrickShape, squareOf. split.
  - rewrite length_map, length_seq. reflexivity.
  - apply Forall_forall. intros row Hin.
    apply list_elem_of_In, in_map_iff in Hin as (y & <- & _).
    rewrite length_map, length_seq. reflexivity.
Qed.

Lemma bitAt_copyBrickShape (b : BrickShape) (i j : nat) :
  (i < shapeSize b)%nat -> (j < shapeSize b)%nat ->
  bitAt (copyBrickShape b) i j = bitAt b i j.
Proof.
  intros Hi Hj. unfold copyBrickShape.
  unfold bitAt at 1. unfold BrickShape, Bit in *.
  rewrite lookup_map, lookup_seq_lt by exact Hi. simpl.
  rewrite lookup_map, lookup_seq_lt by exact Hj. reflexivity.
Qed.

Lemma turnIndex_inside (size : nat) (n : nat) (r c : nat) :
  (r < size)%nat -> (c < size)%nat ->
  (fst (Nat.iter n (turnIndex size) (r, c)) < size)%nat
  /\ (snd (Nat.iter n (turnIndex size) (r, c)) < size)%nat.
Proof.
  intros Hr Hc. induction n as [|n [IHr IHc]]; simpl; [split; assumption|].
  split; [lia|exact IHr].
Qed.

Lemma rotateLoop_spec (size : nat) (n : nat) :
  forall prev cur : BrickShape,
    squareOf size cur ->
    (forall i j, (i < size)%nat -> (j < size)%nat ->
       bitAt cur i j = bitAt prev i j) ->
    squareOf size (rotateLoop n size prev cur)
    /\ forall r c, (r < size)%nat -> (c < size)%nat ->
         bitAt (rotateLoop n size prev cur) r c
         = bitAt prev (fst (Nat.iter n (turnIndex size) (r, c)))
             (snd (Nat.iter n (turnIndex size) (r, c))).
Proof.
  induction n as [|n IH]; intros prev cur Hsq Hcopy.
  - simpl. split; [exact Hsq|]. intros r c Hr Hc. apply Hcopy; assumption.
  - cbn [rotateLoop].
    destruct (rotatePass_spec size prev cur Hsq) as [Hsq' Hpass].
    assert (Hsize : shapeSize (rotatePass size prev cur) = size)
      by exact (proj1 Hsq').
    destruct (IH (copyBrickShape (rotatePass size prev cur))
                (rotatePass size prev cur) Hsq') as [Hsq'' Hloop].
    { intros i j Hi Hj. symmetry. apply bitAt_copyBrickShape;
        rewrite Hsize; assumption. }
    split; [exact Hsq''|]. intros r c Hr Hc.
    rewrite (Hloop r c Hr Hc).
    destruct (turnIndex_inside size n r c Hr Hc) as [Hr' Hc'].
    rewrite bitAt_copyBrickShape by (rewrite Hsize; assumption).
    rewrite Hpass by assumption. reflexivity.
Qed.

Lemma rotateShape_square (prev : BrickShape) (o : Orientation.t) :
  squareOf (shapeSize prev) (rotateShape prev o).
Proof.
  unfold rotateShape. apply rotateLoop_spec.
  - apply copyBrickShape_square.
  - intros i j Hi Hj. apply bitAt_copyBrickShape; assumption.
Qed.

Lemma shapeSize_rotateShape (prev : BrickShape) (o : Orientation.t) :
  shapeSize (rotateShape prev o) = shapeSize prev.
Proof. exact (proj1 (rotateShape_square prev o)). Qed.

(** X1: for every shape and orientation, [rotateShape] returns a square
    matrix of the size of its argument whose cell (r, c) is the cell of the
    argument found by following the clockwise quarter-turn index map once
    per unit of orientation; the in-place loops write every cell exactly
    once. *)
Theorem rotateShape_turns (prev : BrickShape) (o : Orientation.t) :
  let size := shapeSize prev in
  squareOf size (rotateShape prev o)
  /\ forall r c, (r < size)%nat -> (c < size)%nat ->
       bitAt (rotateShape prev o) r c
       = bitAt prev
           (fst (Nat.iter (Orientation.toNat o) (turnIndex size) (r, c)))
           (snd (Nat.iter (Orientation.toNat o) (turnIndex size) (r, c))).
Proof.
  intros size. unfold rotateShape. apply rotateLoop_spec.
  - apply copyBrickShape_square.
  - intros i j Hi Hj. apply bitAt_copyBrickShape; assumption.
Qed.

Lemma rotateShape_turns_witness :
  bitAt (rotateShape (brickTypeToShapeMap BrickType.T) Orientation.RIGHT) 0 1
  = bitAt (brickTypeToShapeMap BrickType.T) 1 0.
Proof.
  apply (proj2 (rotateShape_turns (brickTypeToShapeMap BrickType.T)
                  Orientation.RIGHT) 0%nat 1%nat); simpl; lia.
Defined.

Lemma copyBrickShape_id (size : nat) (b : BrickShape) :
  squareOf size b -> copyBrickShape b = b.
Proof.
  intros Hsq. apply list_eq. intros i. unfold copyBrickShape.
  unfold BrickShape, Bit in *. rewrite lookup_map.
  destruct (b !! i) as [row|] eqn:Hrow.
  - assert (Hi : (i < shapeSize b)%nat) by (apply lookup_lt_is_Some; eauto).
    rewrite lookup_seq_lt by exact Hi. simpl. f_equal.
    apply list_eq. intros j. rewrite lookup_map.
    pose proof (squareOf_row _ _ _ _ Hsq Hrow) as Hw.
    destruct Hsq as [Hlen _]. unfold shapeSize in *.
    destruct (row !! j) as [v|] eqn:Hv.
    + assert (Hj : (j < length b)%nat).
      { apply lookup_lt_Some in Hv. unfold Bit in *. lia. }
      rewrite lookup_seq_lt by exact Hj. simpl. unfold bitAt.
      unfold BrickShape, Bit. rewrite Hrow, Hv. reflexivity.
    + apply lookup_ge_None in Hv.
      rewrite lookup_seq_ge by (unfold Bit in *; lia). reflexivity.
  - apply lookup_ge_None in Hrow.
    rewrite lookup_seq_ge by exact Hrow. reflexivity.
Qed.

Lemma canonical_square (t : BrickType.t) :
  squareOf (shapeSize (brickTypeToShapeMap t)) (brickTypeToShapeMap t).
Proof. destruct t; (split; [reflexivity|repeat constructor]). Qed.

(** X2: [copyBrickShape] always returns a square matrix with as many rows
    as its argument, with the same bits inside that square; on a square
    shape it returns an equal shape. *)
Theorem copyBrickShape_copies (b : BrickShape) :
  squareOf (shapeSize b) (copyBrickShape b)
  /\ (forall i j, (i < shapeSize b)%nat -> (j < shapeSize b)%nat ->
        bitAt (copyBrickShape b) i j = bitAt b i j)
  /\ (forall size, squareOf size b -> copyBrickShape b = b).
Proof.
  split; [apply copyBrickShape_square|]. split.
  - intros i j. apply bitAt_copyBrickShape.
  - intros size. apply copyBrickShape_id.
Qed.

Lemma copyBrickShape_copies_witness :
  copyBrickShape (brickTypeToShapeMap BrickType.T)
  = brickTypeToShapeMap BrickType.T.
Proof.
  apply (proj2 (proj2 (copyBrickShape_copies (brickTypeToShapeMap BrickType.T)))
           3%nat).
  exact (canonical_square BrickType.T).
Defined.

Lemma foldM_snoc {A B : Type} (f : A -> B -> result A) (l : list B) (b : B)
  (a : A) :
  foldM f (l ++ [b]) a = rbind (foldM f l a) (fun a' => f a' b).
Proof.
  revert a. induction l as [|x l IH]; intros a; simpl.
  - destruct (f a b); reflexivity.
  - destruct (f a x); simpl; [apply IH|reflexivity|reflexivity].
Qed.

(** A loop over [0 .. n-1] whose body keeps an invariant indexed by the
    number of iterations done returns, in a state that satisfies the
    invariant at [n]. *)
Lemma foldM_seq_inv {A : Type} (Inv : nat -> A -> Prop)
  (f : A -> nat -> result A) (n : nat) (a : A) :
  Inv 0%nat a ->
  (forall m a, (m < n)%nat -> Inv m a ->
     exists a', f a m = Ok a' /\ Inv (Datatypes.S m) a') ->
  exists a', foldM f (seq 0 n) a = Ok a' /\ Inv n a'.
Proof.
  intros H0 Hstep. induction n as [|n IH].
  - exists a. split; [reflexivity|exact H0].
  - destruct IH as (a1 & Hrun & Hinv).
    { intros m a0 Hm. apply Hstep. lia. }
    destruct (Hstep n a1 ltac:(lia) Hinv) as (a2 & Hf & Hinv2).
    exists a2. rewrite seq_S, foldM_snoc, Hrun. simpl. split; assumption.
Qed.

(** A loop whose body raises at one element of the list, and otherwise
    either raises or keeps a property that makes it raise there, raises. *)
Lemma foldM_throws {A B : Type} (P : A -> Prop) (f : A -> B -> result A)
  (l : list B) (b : B) :
  (forall a x, P a -> f a x = TypeError \/ exists a', f a x = Ok a' /\ P a') ->
  (forall a, P a -> f a b = TypeError) ->
  In b l -> forall a, P a -> foldM f l a = TypeError.
Proof.
  intros Hkeep Hthrow. induction l as [|x l IH]; intros Hin a Ha;
    [contradiction|]. simpl.
  destruct Hin as [->|Hin].
  - rewrite (Hthrow a Ha). reflexivity.
  - destruct (Hkeep a x Ha) as [->|(a' & -> & Ha')]; [reflexivity|].
    simpl. exact (IH Hin a' Ha').
Qed.

Lemma writeCell_ok (grid : Grid) (x y : num) (v : BrickType.t) :
  rowExists grid y ->
  exists grid', writeCell grid x y v = Ok grid' /\ length grid' = length grid.
Proof.
  unfold rowExists, writeCell, Grid in *.
  destruct y as [|z]; simpl; [contradiction|].
  intros Hz. destruct (Z.ltb_spec z 0); [lia|].
  destruct (lookup_lt_is_Some_2 grid (Z.to_nat z)) as [row Hrow]; [lia|].
  rewrite Hrow. eexists. split; [reflexivity|]. apply length_insert.
Qed.

Lemma writeCell_throws (grid : Grid) (x y : num) (v : BrickType.t) :
  ~ rowExists grid y -> writeCell grid x y v = TypeError.
Proof.
  unfold rowExists, writeCell, Grid in *.
  destruct y as [|z]; simpl; [reflexivity|].
  intros Hz. destruct (Z.ltb_spec z 0); [reflexivity|].
  rewrite (proj2 (lookup_ge_None grid (Z.to_nat z))); [reflexivity|]. lia.
Qed.

Lemma rowExists_length (g1 g2 : Grid) (y : num) :
  length g1 = length g2 -> rowExists g1 y -> rowExists g2 y.
Proof. unfold rowExists. intros ->. trivial. Qed.

Lemma rowExists_dec (grid : Grid) (y : num) :
  rowExists grid y \/ ~ rowExists grid y.
Proof.
  unfold rowExists. destruct y as [|z]; simpl; [right; tauto|]. lia.
Qed.

Lemma emptyRow_no_bit (shape : BrickShape) (r c : nat) :
  isEmptyBitGridRow shape r = true -> truthy (bitAt shape r c) = false.
Proof.
  intros Hrow. destruct (truthy (bitAt shape r c)) eqn:Hbit; [|reflexivity].
  apply occupied_row_not_empty in Hbit. congruence.
Qed.

Lemma writeFallingBrickToGrid_rows (s : State) :
  writeFallingBrickToGrid s
  = rbind (foldM (writeRow s.(fallingBrick))
             (seq 0 (shapeSize (FallingBrick.shape s.(fallingBrick))))
             s.(bricks))
      (fun grid => Ok (setBricks s grid)).
Proof. reflexivity. Qed.

Lemma writeRow_outcome (fb : FallingBrick.t) (n : nat) (grid : Grid) (r : nat) :
  length grid = n ->
  writeRow fb grid r = TypeError
  \/ exists grid', writeRow fb grid r = Ok grid' /\ length grid' = n.
Proof.
  intros Hlen. unfold writeRow.
  destruct (isEmptyBitGridRow _ r); [right; eauto|].
  generalize (seq 0 (shapeSize (FallingBrick.shape fb))). intros l.
  revert grid Hlen. induction l as [|c l IH]; intros grid Hlen; simpl;
    [right; eauto|].
  destruct (truthy (bitAt _ r c)); simpl; [|apply IH; exact Hlen].
  destruct (rowExists_dec grid (nadd (FallingBrick.y fb) (Z.of_nat r)))
    as [Hrow|Hrow].
  - destruct (writeCell_ok grid (nadd (FallingBrick.x fb) (Z.of_nat c)) _
                (FallingBrick.type fb) Hrow) as (g' & -> & Hlen').
    simpl. apply IH. congruence.
  - rewrite writeCell_throws by exact Hrow. left. reflexivity.
Qed.

Lemma writeRow_ok (fb : FallingBrick.t) (grid : Grid) (r : nat) :
  (forall c, (c < shapeSize (FallingBrick.shape fb))%nat ->
     truthy (bitAt (FallingBrick.shape fb) r c) = true ->
     rowExists grid (nadd fb.(FallingBrick.y) (Z.of_nat r))) ->
  exists grid', writeRow fb grid r = Ok grid' /\ length grid' = length grid.
Proof.
  intros Hrows. unfold writeRow.
  destruct (isEmptyBitGridRow _ r); [eauto|].
  apply (foldM_seq_inv (fun _ g => length g = length grid)); [reflexivity|].
  intros c g Hc Hlen.
  destruct (truthy (bitAt _ r c)) eqn:Hbit; simpl; [|eauto].
  destruct (writeCell_ok g (nadd (FallingBrick.x fb) (Z.of_nat c))
              (nadd (FallingBrick.y fb) (Z.of_nat r)) (FallingBrick.type fb))
    as (g' & -> & Hlen').
  { apply (rowExists_length grid); [congruence|]. exact (Hrows c Hc Hbit). }
  exists g'. split; [reflexivity|congruence].
Qed.

Lemma writeRow_throws (fb : FallingBrick.t) (grid : Grid) (r c : nat) :
  (c < shapeSize (FallingBrick.shape fb))%nat ->
  truthy (bitAt (FallingBrick.shape fb) r c) = true ->
  ~ rowExists grid (nadd fb.(FallingBrick.y) (Z.of_nat r)) ->
  writeRow fb grid r = TypeError.
Proof.
  intros Hc Hbit Hrow. unfold writeRow.
  rewrite (occupied_row_not_empty _ _ _ Hbit).
  apply (foldM_throws (fun g => length g = length grid)) with (b := c);
    [| |apply in_seq; lia|reflexivity].
  - intros g x Hlen. destruct (truthy (bitAt _ r x)); simpl; [|right; eauto].
    destruct (rowExists_dec g (nadd (FallingBrick.y fb) (Z.of_nat r)))
      as [Hg|Hg].
    + destruct (writeCell_ok g (nadd (FallingBrick.x fb) (Z.of_nat x)) _
                  (FallingBrick.type fb) Hg) as (g' & -> & Hlen').
      right. exists g'. split; [reflexivity|congruence].
    + left. apply writeCell_throws. exact Hg.
  - intros g Hlen. rewrite Hbit. simpl. apply writeCell_throws.
    intros Hg. apply Hrow. apply (rowExists_length g); assumption.
Qed.

(** X3: [writeFallingBrickToGrid] returns when every occupied cell of the
    brick is on a row of the grid, and then keeps the number of rows and
    changes nothing but the grid; it raises a [TypeError] when an occupied
    cell is on a row the grid does not have (above row 0 or below the last
    row). *)
Theorem writeFallingBrickToGrid_outcome (s : State) :
  let fb := s.(fallingBrick) in
  let size := shapeSize (FallingBrick.shape fb) in
  ((forall r c, (r < size)%nat -> (c < size)%nat ->
      truthy (bitAt (FallingBrick.shape fb) r c) = true ->
      rowExists s.(bricks) (nadd fb.(FallingBrick.y) (Z.of_nat r))) ->
   exists grid,
     writeFallingBrickToGrid s = Ok (setBricks s grid)
     /\ length grid = length s.(bricks))
  /\ (forall r c, (r < size)%nat -> (c < size)%nat ->
        truthy (bitAt (FallingBrick.shape fb) r c) = true ->
        ~ rowExists s.(bricks) (nadd fb.(FallingBrick.y) (Z.of_nat r)) ->
        writeFallingBrickToGrid s = TypeError).
Proof.
  intros fb size.
  assert (Hrows : writeFallingBrickToGrid s
                  = rbind (foldM (writeRow fb) (seq 0 size) s.(bricks))
                      (fun grid => Ok (setBricks s grid)))
    by apply writeFallingBrickToGrid_rows.
  rewrite Hrows. clear Hrows. unfold Grid in *. split.
  - intros Hrows.
    destruct (foldM_seq_inv (fun _ g => length g = length s.(bricks))
                (writeRow fb) size s.(bricks)) as (g & Hrun & Hlen);
      [reflexivity| |].
    + intros r g Hr Hlen.
      destruct (writeRow_ok fb g r) as (g' & Hw & Hlen').
      { intros c Hc Hbit. apply (rowExists_length s.(bricks));
          [congruence|]. exact (Hrows r c Hr Hc Hbit). }
      exists g'. split; [exact Hw|congruence].
    + exists g. rewrite Hrun. split; [reflexivity|exact Hlen].
  - intros r c Hr Hc Hbit Hrow.
    rewrite (foldM_throws (fun g => length g = length s.(bricks))
               (writeRow fb) (seq 0 size) r); [reflexivity| | | |reflexivity].
    + intros g x Hlen. apply writeRow_outcome. exact Hlen.
    + intros g Hlen. apply (writeRow_throws fb g r c Hc Hbit).
      intros Hg. apply Hrow. apply (rowExists_length g); assumption.
    + apply in_seq. lia.
Qed.

Lemma boardShaped_row (grid : Grid) (i : nat) (row : list Cell) :
  boardShaped grid -> grid !! i = Some row ->
  length row = Z.to_nat GRID_WIDTH.
Proof.
  intros [_ Hrows] Hrow.
  exact (proj1 (Forall_lookup _ grid) Hrows i row Hrow).
Qed.

Lemma cellAt_insert_row (grid : Grid) (i : nat) (row : list Cell)
  (col r : nat) :
  (i < length grid)%nat ->
  cellAt (<[i := row]> grid) col r
  = if decide (r = i) then row !! col else cellAt grid col r.
Proof.
  intros Hi. unfold cellAt, Grid in *. case_decide as Hr.
  - subst r. rewrite list_lookup_insert_eq by exact Hi. reflexivity.
  - rewrite list_lookup_insert_ne by congruence. reflexivity.
Qed.

(** A write inside the board changes the one cell it names. *)
Lemma writeCell_inside (grid : Grid) (cx ry : Z) (t : BrickType.t) :
  boardShaped grid -> 0 <= cx < GRID_WIDTH -> 0 <= ry < GRID_HEIGHT ->
  exists grid',
    writeCell grid (Fin cx) (Fin ry) t = Ok grid'
    /\ boardShaped grid'
    /\ forall col row : nat,
         cellAt grid' col row
         = if decide (Z.of_nat col = cx /\ Z.of_nat row = ry)
           then Some (brick t) else cellAt grid col row.
Proof.
  intros Hboard Hcx Hry. pose proof Hboard as [Hlen Hrows].
  unfold writeCell. destruct (Z.ltb_spec ry 0); [lia|].
  unfold Grid in *.
  destruct (lookup_lt_is_Some_2 grid (Z.to_nat ry)) as [row Hrow];
    [unfold GRID_HEIGHT in *; lia|].
  rewrite Hrow. eexists. split; [reflexivity|].
  pose proof (boardShaped_row grid _ row Hboard Hrow) as Hw.
  assert (Hset : setCell row (Fin cx) (brick t)
                 = <[Z.to_nat cx := brick t]> row).
  { unfold setCell. destruct (Z.ltb_spec cx 0); [lia|].
    destruct (Nat.ltb_spec (Z.to_nat cx) (length row)); [reflexivity|].
    unfold GRID_WIDTH in *. lia. }
  rewrite Hset. split; [split|].
  - rewrite length_insert. exact Hlen.
  - apply Forall_lookup. intros i r0 Hi.
    destruct (decide (i = Z.to_nat ry)) as [->|Hne].
    + rewrite list_lookup_insert_eq in Hi
        by (unfold GRID_HEIGHT in *; lia).
      injection Hi as <-. rewrite length_insert. exact Hw.
    + rewrite list_lookup_insert_ne in Hi by congruence.
      exact (boardShaped_row grid i r0 Hboard Hi).
  - intros col r.
    rewrite cellAt_insert_row by (unfold GRID_HEIGHT in *; lia).
    destruct (decide (r = Z.to_nat ry)) as [->|Hr].
    + destruct (decide (col = Z.to_nat cx)) as [->|Hc].
      * rewrite list_lookup_insert_eq by (unfold GRID_WIDTH in *; lia).
        case_decide as Hd; [reflexivity|]. exfalso. apply Hd. lia.
      * rewrite list_lookup_insert_ne by congruence.
        case_decide as Hd; [lia|]. unfold cellAt, Grid. rewrite Hrow.
        reflexivity.
    + case_decide as Hd; [lia|reflexivity].
Qed.

Lemma shape_square (fb : FallingBrick.t) :
  squareOf (shapeSize (FallingBrick.shape fb)) (FallingBrick.shape fb).
Proof.
  unfold FallingBrick.shape.
  destruct (_ || _); [apply canonical_square|].
  rewrite shapeSize_rotateShape. apply rotateShape_square.
Qed.

Lemma bit_inside (size : nat) (b : BrickShape) (i j : nat) :
  squareOf size b -> truthy (bitAt b i j) = true ->
  (i < size)%nat /\ (j < size)%nat.
Proof.
  intros Hsq. unfold bitAt. destruct (b !! i) as [row|] eqn:Hrow;
    [|discriminate].
  destruct (row !! j) as [v|] eqn:Hv; [|discriminate]. intros _.
  pose proof (squareOf_row _ _ _ _ Hsq Hrow) as Hw.
  apply lookup_lt_Some in Hrow, Hv. destruct Hsq as [Hlen _].
  unfold BrickShape, Bit in *. lia.
Qed.

#[global] Instance rowDone_dec shape xz yz r m col row :
  Decision (rowDone shape xz yz r m col row).
Proof. unfold rowDone. apply _. Defined.

Section Stamp.

Variables (fb : FallingBrick.t) (xz yz : Z).
Hypothesis Hx : fb.(FallingBrick.x) = Fin xz.
Hypothesis Hy : fb.(FallingBrick.y) = Fin yz.
Hypothesis Hinside :
  forall r c : nat,
    truthy (bitAt (FallingBrick.shape fb) r c) = true ->
    0 <= xz + Z.of_nat c < GRID_WIDTH /\ 0 <= yz + Z.of_nat r < GRID_HEIGHT.

Let shape := FallingBrick.shape fb.
Let size := shapeSize shape.

Lemma writeRow_inside (grid : Grid) (r : nat) :
  boardShaped grid ->
  exists grid',
    writeRow fb grid r = Ok grid'
    /\ boardShaped grid'
    /\ forall col row : nat,
         cellAt grid' col row
         = if decide (rowDone shape xz yz r size col row)
           then Some (brick fb.(FallingBrick.type)) else cellAt grid col row.
Proof.
  intros Hboard. unfold writeRow. fold shape. fold size.
  destruct (isEmptyBitGridRow shape r) eqn:Hrow.
  { exists grid. split; [reflexivity|]. split; [exact Hboard|].
    intros col row. case_decide as Hd; [|reflexivity].
    destruct Hd as (_ & _ & Hbit).
    rewrite (emptyRow_no_bit _ _ _ Hrow) in Hbit. discriminate. }
  pose proof (foldM_seq_inv
           (fun m g =>
              boardShaped g
              /\ forall col row : nat,
                   cellAt g col row
                   = if decide (rowDone shape xz yz r m col row)
                     then Some (brick fb.(FallingBrick.type))
                     else cellAt grid col row)) as Hloop.
  apply Hloop; clear Hloop.
  { split; [exact Hboard|]. intros col row.
    case_decide as Hd; [|reflexivity]. destruct Hd as (_ & Hc & _). lia. }
  intros m g Hm [Hg Hcells].
  destruct (truthy (bitAt shape r m)) eqn:Hbit; cbn [negb].
  - rewrite Hx, Hy. cbn [nadd].
    destruct (Hinside r m Hbit) as [Hcol Hrw].
    destruct (writeCell_inside g (xz + Z.of_nat m) (yz + Z.of_nat r)
                fb.(FallingBrick.type) Hg Hcol Hrw)
      as (g' & -> & Hg' & Hcells').
    exists g'. split; [reflexivity|]. split; [exact Hg'|].
    intros col row. rewrite Hcells', Hcells.
    destruct (decide (Z.of_nat col = xz + Z.of_nat m
                      /\ Z.of_nat row = yz + Z.of_nat r)) as [[Hc Hr]|Hn].
    + case_decide as Hd; [reflexivity|]. exfalso. apply Hd.
      split; [exact Hr|]. split; [lia|].
      replace (Z.to_nat (Z.of_nat col - xz)) with m by lia. exact Hbit.
    + destruct (decide (rowDone shape xz yz r m col row)) as [Hd|Hd];
        destruct (decide (rowDone shape xz yz r (Datatypes.S m) col row)) as [Hd'|Hd'];
        try reflexivity; exfalso.
      * apply Hd'. destruct Hd as (H1 & H2 & H3).
        split; [exact H1|]. split; [lia|exact H3].
      * destruct Hd' as (H1 & H2 & H3).
        destruct (decide (Z.of_nat col = xz + Z.of_nat m)) as [Hc|Hc].
        -- apply Hn. split; assumption.
        -- apply Hd. split; [exact H1|]. split; [lia|exact H3].
  - exists g. split; [reflexivity|]. split; [exact Hg|].
    intros col row. rewrite Hcells.
    destruct (decide (rowDone shape xz yz r m col row)) as [Hd|Hd];
      destruct (decide (rowDone shape xz yz r (Datatypes.S m) col row)) as [Hd'|Hd'];
      try reflexivity; exfalso.
    + apply Hd'. destruct Hd as (H1 & H2 & H3).
      split; [exact H1|]. split; [lia|exact H3].
    + destruct Hd' as (H1 & H2 & H3).
      destruct (decide (Z.of_nat col = xz + Z.of_nat m)) as [Hc|Hc].
      * replace (Z.to_nat (Z.of_nat col - xz)) with m in H3 by lia.
        congruence.
      * apply Hd. split; [exact H1|]. split; [lia|exact H3].
Qed.

Lemma covers_rowDone (col row : nat) :
  covers fb (Z.of_nat col) (Z.of_nat row) = true
  <-> yz <= Z.of_nat row < yz + Z.of_nat size
      /\ rowDone shape xz yz (Z.to_nat (Z.of_nat row - yz)) size col row.
Proof.
  unfold covers, rowDone. rewrite Hx, Hy. fold shape. split.
  - intros H. apply andb_true_iff in H as [H Hbit].
    apply andb_true_iff in H as [Hc Hr].
    apply Z.leb_le in Hc, Hr.
    destruct (bit_inside size shape _ _ (shape_square fb) Hbit) as [Hi Hj].
    split; [lia|]. split; [lia|]. split; [lia|exact Hbit].
  - intros (Hr & H1 & H2 & H3). rewrite H3.
    destruct (Z.leb_spec xz (Z.of_nat col)); [|lia].
    destruct (Z.leb_spec yz (Z.of_nat row)); [|lia]. reflexivity.
Qed.

Lemma writeRows_inside (grid : Grid) :
  boardShaped grid ->
  exists grid',
    foldM (writeRow fb) (seq 0 size) grid = Ok grid'
    /\ boardShaped grid'
    /\ forall col row : nat,
         cellAt grid' col row
         = if covers fb (Z.of_nat col) (Z.of_nat row)
           then Some (brick fb.(FallingBrick.type)) else cellAt grid col row.
Proof.
  intros Hboard.
  destruct (foldM_seq_inv
              (fun m g =>
                 boardShaped g
                 /\ forall col row : nat,
                      cellAt g col row
                      = if decide
                             (yz <= Z.of_nat row < yz + Z.of_nat m
                              /\ rowDone shape xz yz
                                   (Z.to_nat (Z.of_nat row - yz)) size col row)
                        then Some (brick fb.(FallingBrick.type))
                        else cellAt grid col row)
              (writeRow fb) size grid) as (g & Hrun & Hg & Hcells).
  { split; [exact Hboard|]. intros col row.
    case_decide as Hd; [|reflexivity]. destruct Hd as (Hr & _). lia. }
  { intros m g Hm [Hg Hcells].
    destruct (writeRow_inside g m Hg) as (g' & Hw & Hg' & Hcells').
    exists g'. split; [exact Hw|]. split; [exact Hg'|].
    intros col row. rewrite Hcells', Hcells.
    destruct (decide (rowDone shape xz yz m size col row)) as [Hd|Hd].
    - case_decide as Hd'; [reflexivity|]. exfalso. apply Hd'.
      pose proof Hd as (H1 & _).
      replace (Z.to_nat (Z.of_nat row - yz)) with m by lia.
      split; [lia|exact Hd].
    - destruct (decide
                  (yz <= Z.of_nat row < yz + Z.of_nat m
                   /\ rowDone shape xz yz (Z.to_nat (Z.of_nat row - yz))
                        size col row)) as [He|He];
        destruct (decide
                    (yz <= Z.of_nat row < yz + Z.of_nat (Datatypes.S m)
                     /\ rowDone shape xz yz (Z.to_nat (Z.of_nat row - yz))
                          size col row)) as [He'|He'];
        try reflexivity; exfalso.
      + apply He'. destruct He as (Hr & H). split; [lia|exact H].
      + destruct He' as (Hr & H).
        destruct (decide (Z.of_nat row = yz + Z.of_nat m)) as [Hrm|Hrm].
        * apply Hd.
          replace (Z.to_nat (Z.of_nat row - yz)) with m in H by lia.
          exact H.
        * apply He. split; [lia|exact H]. }
  exists g. split; [exact Hrun|]. split; [exact Hg|].
  intros col row. rewrite Hcells.
  destruct (covers fb (Z.of_nat col) (Z.of_nat row)) eqn:Hcov.
  - case_decide as Hd; [reflexivity|]. exfalso. apply Hd.
    apply covers_rowDone. exact Hcov.
  - case_decide as Hd; [|reflexivity].
    apply covers_rowDone in Hd. congruence.
Qed.

End Stamp.

(** X4: when every occupied cell of the brick is on the 20 by 10 board,
    [writeFallingBrickToGrid] returns, keeps the grid 20 by 10, stamps the
    brick's type on exactly the cells the brick covers and leaves every
    other cell as it was. *)
Theorem writeFallingBrickToGrid_stamps (s : State) :
  let fb := s.(fallingBrick) in
  insideBoard fb -> boardShaped s.(bricks) ->
  exists grid,
    writeFallingBrickToGrid s = Ok (setBricks s grid)
    /\ boardShaped grid
    /\ forall col row : nat,
         cellAt grid col row
         = if covers fb (Z.of_nat col) (Z.of_nat row)
           then Some (brick fb.(FallingBrick.type))
           else cellAt s.(bricks) col row.
Proof.
  intros fb (xz & yz & Hx & Hy & Hin) Hboard.
  destruct (writeRows_inside fb xz yz Hx Hy Hin s.(bricks) Hboard)
    as (g & Hrun & Hg & Hcells).
  exists g. rewrite writeFallingBrickToGrid_rows. fold fb.
  unfold Grid in *. rewrite Hrun. split; [reflexivity|]. split; assumption.
Qed.

Lemma landedT_inside : insideBoard landedT.(fallingBrick).
Proof.
  exists 3, 17. split; [reflexivity|]. split; [reflexivity|].
  intros r c.
  destruct r as [|[|[|r]]]; destruct c as [|[|[|c]]];
    try discriminate; intros _; unfold GRID_WIDTH, GRID_HEIGHT; lia.
Defined.

Lemma writeFallingBrickToGrid_stamps_witness :
  exists grid,
    writeFallingBrickToGrid landedT = Ok (setBricks landedT grid)
    /\ boardShaped grid
    /\ forall col row : nat,
         cellAt grid col row
         = if covers landedT.(fallingBrick) (Z.of_nat col) (Z.of_nat row)
           then Some (brick BrickType.T)
           else cellAt landedT.(bricks) col row.
Proof.
  apply (writeFallingBrickToGrid_stamps landedT landedT_inside).
  exact emptyCells_boardShaped.
Defined.

Lemma writeFallingBrickToGrid_outcome_witness :
  writeFallingBrickToGrid throughFloor = TypeError.
Proof.
  apply (proj2 (writeFallingBrickToGrid_outcome throughFloor) 2%nat 2%nat).
  - simpl. lia.
  - simpl. lia.
  - reflexivity.
  - unfold rowExists. simpl. lia.
Defined.

Lemma spawned_state (s : State) :
  (if FallingBrick.isUnspawned (fallingBrick s)
   then setFallingBrick s (FallingBrick.spawn (fallingBrick s))
   else s)
  = setFallingBrick s (spawned (fallingBrick s)).
Proof.
  unfold spawned. destruct (FallingBrick.isUnspawned _); [reflexivity|].
  destruct s; reflexivity.
Qed.

(** The branches of [tickClock], one per way it can return. *)
Lemma tickClock_cases (draw : nat -> BrickType.t) (s s' : State) (k k' : nat) :
  tickClock draw s k = Ok (s', k') ->
  (s.(phase) <> GamePhase.IN_PROGRESS /\ s' = s /\ k' = k)
  \/ (s.(phase) = GamePhase.IN_PROGRESS
      /\ exists n, s.(completedRowAnimationFrame) = Some n
           /\ n <> ROW_ANIMATION_FRAMES
           /\ s' = setFrame s (Some (n + 1)) /\ k' = k)
  \/ (s.(phase) = GamePhase.IN_PROGRESS
      /\ s.(completedRowAnimationFrame) = Some ROW_ANIMATION_FRAMES
      /\ s' = setBricks (setFrame s None)
                (removeCompletedRowsFromGrid s.(bricks))
      /\ k' = k)
  \/ (s.(phase) = GamePhase.IN_PROGRESS
      /\ s.(completedRowAnimationFrame) = None
      /\ FallingBrick.canFall (spawned s.(fallingBrick)) s.(bricks) = true
      /\ s' = setFallingBrick s (lower (spawned s.(fallingBrick)) 1)
      /\ k' = k)
  \/ (s.(phase) = GamePhase.IN_PROGRESS
      /\ s.(completedRowAnimationFrame) = None
      /\ FallingBrick.canFall (spawned s.(fallingBrick)) s.(bricks) = false
      /\ FallingBrick.gameOver (spawned s.(fallingBrick)) s.(bricks) = true
      /\ s' = gameOver (setFallingBrick s (spawned s.(fallingBrick)))
      /\ k' = k)
  \/ (locksIn s
      /\ exists grid front rest,
           writeFallingBrickToGrid
             (setFallingBrick s (spawned s.(fallingBrick)))
           = Ok (setBricks (setFallingBrick s (spawned s.(fallingBrick))) grid)
           /\ s.(queue) = front :: rest
           /\ s' = lockedIn s grid front rest (draw k)
           /\ k' = Datatypes.S k).
Proof.
  unfold tickClock, ret.
  destruct (GamePhase.eqb (phase s) GamePhase.IN_PROGRESS) eqn:Hphase; simpl.
  2:{ intros H; injection H as <- <-. left. split; [|split; reflexivity].
      intros Heq. rewrite Heq in Hphase. discriminate. }
  assert (Hp : phase s = GamePhase.IN_PROGRESS)
    by (destruct (phase s); first [discriminate|reflexivity]).
  unfold isRowAnimating at 1.
  destruct (completedRowAnimationFrame s) as [n|] eqn:Hframe.
  { unfold tickCompletedRowAnimation, isRowAnimating, nextFrame.
    rewrite Hframe. cbn [setFrame completedRowAnimationFrame].
    destruct (Z.eqb_spec n ROW_ANIMATION_FRAMES) as [->|Hne];
      intros H; injection H as <- <-.
    - right. right. left. repeat split. exact Hp.
    - right. left. split; [exact Hp|]. exists n. repeat split. exact Hne. }
  rewrite spawned_state.
  cbn [fallingBrick bricks setFallingBrick].
  unfold FallingBrick.tickGravity.
  destruct (FallingBrick.canFall (spawned (fallingBrick s)) (bricks s))
    eqn:Hfall; simpl.
  { intros H; injection H as <- <-. do 3 right. left.
    repeat split; assumption. }
  destruct (FallingBrick.gameOver (spawned (fallingBrick s)) (bricks s))
    eqn:Hover.
  { intros H; injection H as <- <-. do 4 right. left.
    repeat split; assumption. }
  unfold bind, lift.
  change (setFallingBrick (setFallingBrick s (spawned (fallingBrick s)))
            (spawned (fallingBrick s)))
    with (setFallingBrick s (spawned (fallingBrick s))).
  destruct (writeFallingBrickToGrid _) as [s1| |] eqn:Hwrite;
    try discriminate.
  apply writeFallingBrickToGrid_frame in Hwrite as [grid ->].
  unfold dequeueNextBrick, bind, randomBrickType, lift, ret.
  cbn [queue bricks setBricks setFallingBrick].
  destruct (queue s) as [|front rest] eqn:Hqueue; [discriminate|].
  intros Hret. do 5 right. split; [repeat split; assumption|].
  exists grid, front, rest. split; [reflexivity|]. split; [reflexivity|].
  revert Hret. unfold lockedIn.
  cbn [bricks phase score completedRowAnimationFrame setBricks
       setFallingBrick].
  destruct (hasCompletedRow grid); cbn; intros Hret; injection Hret as <- <-;
    split; reflexivity.
Qed.

Lemma foldM_keeps {A B : Type} (P : A -> Prop) (f : A -> B -> result A)
  (l : list B) :
  (forall a x, P a -> f a x = TypeError \/ exists a', f a x = Ok a' /\ P a') ->
  forall a a', P a -> foldM f l a = Ok a' -> P a'.
Proof.
  intros Hkeep. induction l as [|x l IH]; intros a a' Ha; simpl.
  - intros H. injection H as <-. exact Ha.
  - destruct (Hkeep a x Ha) as [->|(a1 & -> & Ha1)]; [discriminate|].
    simpl. apply IH. exact Ha1.
Qed.

Lemma writeFallingBrickToGrid_length (s s' : State) :
  writeFallingBrickToGrid s = Ok s' ->
  length s'.(bricks) = length s.(bricks).
Proof.
  rewrite writeFallingBrickToGrid_rows.
  destruct (foldM _ _ _) as [g| |] eqn:Hrun; try discriminate.
  simpl. intros H. injection H as <-. cbn [bricks setBricks].
  apply (foldM_keeps (fun g => length g = length s.(bricks))
           (writeRow s.(fallingBrick)) _
           (fun g x Hg => writeRow_outcome _ _ g x Hg) _ _ eq_refl Hrun).
Qed.

Lemma roundToDouble_safe (z : Z) :
  Z.abs z <= 2 ^ 53 -> roundToDouble z = z.
Proof.
  intros Hz. unfold roundToDouble.
  destruct (Z.leb_spec (Z.abs z) (2 ^ 53)); [reflexivity|lia].
Qed.

Lemma countCompleteRows_le (grid : Grid) :
  (countCompleteRows grid <= length grid)%nat.
Proof.
  unfold countCompleteRows. induction grid as [|row grid IH]; simpl; [lia|].
  destruct (isCompleteRow row); simpl; lia.
Qed.

(** Below 2^53 the additions of [awardPoints] are exact. *)
Lemma awardPoints_score (s : State) :
  0 <= s.(score) ->
  s.(score) + POINTS_PER_ROW * Z.of_nat (length s.(bricks)) <= 2 ^ 53 ->
  (awardPoints s).(score)
  = s.(score) + POINTS_PER_ROW * Z.of_nat (countCompleteRows s.(bricks)).
Proof.
  intros Hpos Hsafe. unfold awardPoints. cbn [score setScore].
  assert (Hgen : forall (l : Grid) (acc : Z),
            0 <= acc ->
            acc + POINTS_PER_ROW * Z.of_nat (length l) <= 2 ^ 53 ->
            foldl (fun points row =>
                     if isCompleteRow row then jsAdd points POINTS_PER_ROW
                     else points) acc l
            = acc + POINTS_PER_ROW * Z.of_nat (countCompleteRows l)).
  { unfold countCompleteRows, POINTS_PER_ROW.
    induction l as [|row l IH]; intros acc Hacc Hbound; simpl; [lia|].
    simpl length in Hbound.
    destruct (isCompleteRow row); simpl length.
    - unfold jsAdd. rewrite roundToDouble_safe by lia.
      rewrite IH by lia. lia.
    - rewrite IH by lia. lia. }
  rewrite Hgen by (unfold POINTS_PER_ROW in *; lia).
  pose proof (countCompleteRows_le s.(bricks)) as Hle.
  unfold jsAdd. apply roundToDouble_safe. unfold POINTS_PER_ROW in *. lia.
Qed.

Lemma countCompleteRows_none (grid : Grid) :
  hasCompletedRow grid = false -> countCompleteRows grid = 0%nat.
Proof.
  unfold hasCompletedRow, countCompleteRows.
  induction grid as [|row grid IH]; simpl; [reflexivity|].
  destruct (isCompleteRow row); simpl; [discriminate|exact IH].
Qed.

Lemma countCompleteRows_pos (grid : Grid) :
  hasCompletedRow grid = true -> (0 < countCompleteRows grid)%nat.
Proof.
  unfold hasCompletedRow, countCompleteRows.
  induction grid as [|row grid IH]; simpl; [discriminate|].
  destruct (isCompleteRow row); simpl; [lia|exact IH].
Qed.

Lemma lockedIn_fields (s : State) (grid : Grid) (front : BrickType.t)
  (rest : Queue) (b : BrickType.t) :
  let s' := lockedIn s grid front rest b in
  s'.(phase) = s.(phase) /\ s'.(bricks) = grid
  /\ s'.(fallingBrick) = FallingBrick.new front
  /\ s'.(queue) = take (QUEUE_SIZE - 1) rest ++ [b].
Proof.
  unfold lockedIn. destruct (hasCompletedRow grid); repeat split.
Qed.

(** X5: the phase machine of the reducer.  An action that returns either
    is START_GAME and yields phase IN_PROGRESS, or keeps the phase, or is a
    TICK_CLOCK that takes IN_PROGRESS to OVER, which happens only when the
    spawned brick meets the game-over test and then leaves grid, score and
    queue untouched.  In particular no action leads back to UNSTARTED and
    only START_GAME leaves OVER. *)
Theorem handleActions_phase (draw : nat -> BrickType.t) (fuel : nat)
  (s s' : State) (a : Action.t) (k k' : nat) :
  handleActions draw fuel s a k = Ok (s', k') ->
  (a = Action.START_GAME /\ s'.(phase) = GamePhase.IN_PROGRESS)
  \/ (a <> Action.START_GAME /\ s'.(phase) = s.(phase))
  \/ (a = Action.TICK_CLOCK /\ s.(phase) = GamePhase.IN_PROGRESS
      /\ s'.(phase) = GamePhase.OVER
      /\ FallingBrick.gameOver (spawned s.(fallingBrick)) s.(bricks) = true
      /\ s'.(bricks) = s.(bricks) /\ s'.(score) = s.(score)
      /\ s'.(queue) = s.(queue) /\ k' = k).
Proof.
  intros Hstep. destruct a; simpl in Hstep.
  - apply tickClock_cases in Hstep
      as [(_ & -> & _)|[(_ & n & _ & _ & -> & _)|[(_ & _ & -> & _)
         |[(_ & _ & _ & -> & _)|[(Hp & _ & _ & Hover & -> & ->)
         |(_ & grid & front & rest & _ & _ & -> & _)]]]]].
    + right. left. split; [discriminate|reflexivity].
    + right. left. split; [discriminate|reflexivity].
    + right. left. split; [discriminate|reflexivity].
    + right. left. split; [discriminate|reflexivity].
    + right. right. repeat split; assumption.
    + right. left. split; [discriminate|].
      apply (lockedIn_fields s grid front rest (draw k)).
  - left. split; [reflexivity|]. unfold bind in Hstep.
    destruct (initialState_returns draw k) as (s0 & Hs0 & _).
    rewrite Hs0 in Hstep. injection Hstep as <- <-. reflexivity.
  - right. left. split; [discriminate|]. unfold bind, lift in Hstep.
    destruct (FallingBrick.fastFall _ _ _); try discriminate.
    injection Hstep as <- <-. reflexivity.
  - right. left. split; [discriminate|]. injection Hstep as <- <-.
    reflexivity.
  - right. left. split; [discriminate|]. injection Hstep as <- <-.
    reflexivity.
  - right. left. split; [discriminate|]. injection Hstep as <- <-.
    reflexivity.
Qed.

(** X6: take a state whose score is a non-negative integer with
    score + 100 * rows <= 2^53, where doubles add exactly, and an action
    other than START_GAME that returns.  If the action is a TICK_CLOCK that
    locks the brick in, the score grows by exactly 100 points per complete
    row of the new grid (by nothing when there is none) and the animation
    counter is 0 when the new grid has a complete row and stays absent
    otherwise.  In every other case the score is unchanged. *)
Theorem handleActions_score (draw : nat -> BrickType.t) (fuel : nat)
  (s s' : State) (a : Action.t) (k k' : nat) :
  a <> Action.START_GAME ->
  0 <= s.(score) ->
  s.(score) + POINTS_PER_ROW * Z.of_nat (length s.(bricks)) <= 2 ^ 53 ->
  handleActions draw fuel s a k = Ok (s', k') ->
  (a = Action.TICK_CLOCK /\ locksIn s ->
   s'.(score)
   = s.(score) + POINTS_PER_ROW * Z.of_nat (countCompleteRows s'.(bricks))
   /\ s'.(completedRowAnimationFrame)
      = if hasCompletedRow s'.(bricks) then Some 0 else None)
  /\ (~ (a = Action.TICK_CLOCK /\ locksIn s) -> s'.(score) = s.(score)).
Proof.
  intros Hstart Hpos Hsafe Hstep. destruct a; simpl in Hstep;
    try contradiction.
  - apply tickClock_cases in Hstep
      as [(Hp & -> & _)|[(_ & n & Hf & _ & -> & _)|[(_ & Hf & -> & _)
         |[(_ & _ & Hfall & -> & _)|[(_ & _ & _ & Hover & -> & ->)
         |(Hlock & grid & front & rest & Hw & _ & -> & _)]]]]].
    + split; [|reflexivity]. intros [_ (Hp' & _)]. contradiction.
    + split; [|reflexivity]. intros [_ (_ & Hf' & _)]. congruence.
    + split; [|reflexivity]. intros [_ (_ & Hf' & _)]. congruence.
    + split; [|reflexivity]. intros [_ (_ & _ & Hfall' & _)]. congruence.
    + split; [|reflexivity]. intros [_ (_ & _ & _ & Hover')]. congruence.
    + split; [|intros Hn; exfalso; apply Hn; split; [reflexivity|exact Hlock]].
      intros _. apply writeFallingBrickToGrid_length in Hw.
      cbn [bricks setBricks setFallingBrick] in Hw.
      pose proof Hlock as (_ & Hframe & _).
      unfold lockedIn. destruct (hasCompletedRow grid) eqn:Hrows.
      * rewrite awardPoints_score;
          cbn [score bricks tickCompletedRowAnimation setFrame
               completedRowAnimationFrame awardPoints setScore];
          [|exact Hpos|rewrite Hw; exact Hsafe].
        rewrite Hrows, Hframe. split; reflexivity.
      * cbn [score bricks completedRowAnimationFrame].
        rewrite Hrows, (countCompleteRows_none grid Hrows), Hframe.
        split; [lia|reflexivity].
  - split; [intros [H _]; discriminate H|]. intros _.
    unfold bind, lift in Hstep.
    destruct (FallingBrick.fastFall _ _ _); try discriminate.
    injection Hstep as <- <-. reflexivity.
  - split; [intros [H _]; discriminate H|]. intros _.
    injection Hstep as <- <-. reflexivity.
  - split; [intros [H _]; discriminate H|]. intros _.
    injection Hstep as <- <-. reflexivity.
  - split; [intros [H _]; discriminate H|]. intros _.
    injection Hstep as <- <-. reflexivity.
Qed.

(** X7: in the initial state, and after every action that returns from a
    state with this property, the grid holds no complete row unless a
    row-clear animation is running. *)
Theorem settled_invariant (draw : nat -> BrickType.t) :
  (forall k s k', initialState draw k = Ok (s, k') -> settled s)
  /\ (forall fuel s a k s' k',
        settled s -> handleActions draw fuel s a k = Ok (s', k') ->
        settled s').
Proof.
  assert (Hinit : forall k s k', initialState draw k = Ok (s, k') -> settled s).
  { intros k s k'. unfold initialState, bind, randomBrickType, ret.
    destruct (randomBrickTypes draw QUEUE_SIZE (Datatypes.S k))
      as [[q n]| |]; try discriminate.
    intros H. injection H as <- <-. intros _. reflexivity. }
  split; [exact Hinit|].
  intros fuel s a k s' k' Hs Hstep. destruct a; simpl in Hstep.
  - apply tickClock_cases in Hstep
      as [(_ & -> & _)|[(_ & n & _ & _ & -> & _)|[(_ & _ & -> & _)
         |[(_ & Hf & _ & -> & _)|[(Hp & Hf & _ & Hover & -> & ->)
         |((_ & Hf & _) & grid & front & rest & _ & _ & -> & _)]]]]].
    + exact Hs.
    + intros H. discriminate H.
    + intros _. apply hasCompletedRow_removed.
    + exact Hs.
    + exact Hs.
    + unfold lockedIn. destruct (hasCompletedRow grid) eqn:Hrows.
      * intros H. cbn in H. rewrite Hf in H. discriminate H.
      * intros _. exact Hrows.
  - unfold bind in Hstep.
    destruct (initialState draw k) as [[s0 k0]| |] eqn:Hs0; try discriminate.
    injection Hstep as <- <-. intros H. apply (Hinit _ _ _ Hs0). exact H.
  - unfold bind, lift in Hstep.
    destruct (FallingBrick.fastFall _ _ _); try discriminate.
    injection Hstep as <- <-. exact Hs.
  - injection Hstep as <- <-. exact Hs.
  - injection Hstep as <- <-. exact Hs.
  - injection Hstep as <- <-. exact Hs.
Qed.

Lemma removeCompletedRowsFromGrid_length (grid : Grid) :
  (length grid <= Z.to_nat GRID_HEIGHT)%nat ->
  length (removeCompletedRowsFromGrid grid) = Z.to_nat GRID_HEIGHT.
Proof.
  intros Hlen. rewrite removeCompletedRowsFromGrid_eq.
  pose proof (filter_incomplete_length grid).
  rewrite length_app, length_replicate. lia.
Qed.

Lemma initialState_fields (draw : nat -> BrickType.t) (k : nat) (s : State)
  (k' : nat) :
  initialState draw k = Ok (s, k') ->
  s.(bricks) = emptyCells (Z.to_nat GRID_WIDTH) (Z.to_nat GRID_HEIGHT)
  /\ s.(score) = 0 /\ s.(completedRowAnimationFrame) = None
  /\ s.(fallingBrick) = FallingBrick.new (draw k).
Proof.
  unfold initialState, bind, randomBrickType, ret.
  destruct (randomBrickTypes draw QUEUE_SIZE (Datatypes.S k))
    as [[q n]| |]; try discriminate.
  intros H. injection H as <- <-. repeat split.
Qed.

(** X8: every action that returns keeps the grid at 20 rows. *)
Theorem grid_height_invariant (draw : nat -> BrickType.t) (fuel : nat)
  (s s' : State) (a : Action.t) (k k' : nat) :
  length s.(bricks) = Z.to_nat GRID_HEIGHT ->
  handleActions draw fuel s a k = Ok (s', k') ->
  length s'.(bricks) = Z.to_nat GRID_HEIGHT.
Proof.
  intros Hlen Hstep. destruct a; simpl in Hstep.
  - apply tickClock_cases in Hstep
      as [(_ & -> & _)|[(_ & n & _ & _ & -> & _)|[(_ & _ & -> & _)
         |[(_ & _ & _ & -> & _)|[(_ & _ & _ & _ & -> & _)
         |(_ & grid & front & rest & Hw & _ & -> & _)]]]]];
      try exact Hlen.
    + cbn [bricks setBricks]. apply removeCompletedRowsFromGrid_length. lia.
    + apply writeFallingBrickToGrid_length in Hw.
      cbn [bricks setBricks setFallingBrick] in Hw.
      destruct (lockedIn_fields s grid front rest (draw k)) as (_ & Hb & _).
      rewrite Hb. congruence.
  - unfold bind in Hstep.
    destruct (initialState draw k) as [[s0 k0]| |] eqn:Hs0; try discriminate.
    injection Hstep as <- <-. cbn [bricks setPhase].
    rewrite (proj1 (initialState_fields draw k s0 k0 Hs0)). reflexivity.
  - unfold bind, lift in Hstep.
    destruct (FallingBrick.fastFall _ _ _); try discriminate.
    injection Hstep as <- <-. exact Hlen.
  - injection Hstep as <- <-. exact Hlen.
  - injection Hstep as <- <-. exact Hlen.
  - injection Hstep as <- <-. exact Hlen.
Qed.

Lemma tickClock_animating (draw : nat -> BrickType.t) (s : State) (n : Z)
  (k : nat) :
  s.(phase) = GamePhase.IN_PROGRESS ->
  s.(completedRowAnimationFrame) = Some n ->
  tickClock draw s k
  = Ok (if n =? ROW_ANIMATION_FRAMES
        then setBricks (setFrame s None)
               (removeCompletedRowsFromGrid s.(bricks))
        else setFrame s (Some (n + 1)), k).
Proof.
  intros Hphase Hframe.
  unfold tickClock, isRowAnimating, tickCompletedRowAnimation, nextFrame.
  rewrite Hphase, Hframe. simpl.
  destruct (n =? ROW_ANIMATION_FRAMES); reflexivity.
Qed.

Lemma ticks_animating (draw : nat -> BrickType.t) (fuel : nat) (j : nat) :
  forall (s : State) (n : Z) (k : nat),
    s.(phase) = GamePhase.IN_PROGRESS ->
    s.(completedRowAnimationFrame) = Some n ->
    0 <= n -> n + Z.of_nat j <= ROW_ANIMATION_FRAMES ->
    runActions draw fuel s (replicate j Action.TICK_CLOCK) k
    = Ok (setFrame s (Some (n + Z.of_nat j)), k).
Proof.
  induction j as [|j IH]; intros s n k Hphase Hframe Hn Hj.
  - simpl. unfold ret. rewrite Z.add_0_r, <- Hframe.
    destruct s; reflexivity.
  - cbn [replicate runActions]. unfold bind. cbn [handleActions].
    rewrite (tickClock_animating draw s n k Hphase Hframe).
    destruct (Z.eqb_spec n ROW_ANIMATION_FRAMES) as [->|_]; [lia|].
    rewrite (IH (setFrame s (Some (n + 1))) (n + 1) k);
      [|exact Hphase|reflexivity|lia|lia].
    cbn [setFrame phase bricks score fallingBrick queue].
    do 4 f_equal. lia.
Qed.

(** X9: from an IN_PROGRESS state whose animation counter is 0, the first
    six TICK_CLOCKs only advance the counter (to 1, ..., 6) and the seventh
    clears it and removes the completed rows; nothing else changes and no
    random brick is drawn. *)
Theorem animation_runs (draw : nat -> BrickType.t) (fuel : nat) (s : State)
  (k : nat) :
  s.(phase) = GamePhase.IN_PROGRESS ->
  s.(completedRowAnimationFrame) = Some 0 ->
  (forall j : nat, (j <= 6)%nat ->
     runActions draw fuel s (replicate j Action.TICK_CLOCK) k
     = Ok (setFrame s (Some (Z.of_nat j)), k))
  /\ runActions draw fuel s (replicate 7 Action.TICK_CLOCK) k
     = Ok (setBricks (setFrame s None)
             (removeCompletedRowsFromGrid s.(bricks)), k).
Proof.
  intros Hphase Hframe. split.
  - intros j Hj.
    rewrite (ticks_animating draw fuel j s 0 k Hphase Hframe);
      [reflexivity|lia|unfold ROW_ANIMATION_FRAMES; lia].
  - change (replicate 7 Action.TICK_CLOCK)
      with (Action.TICK_CLOCK :: replicate 6 Action.TICK_CLOCK).
    cbn [runActions]. unfold bind at 1. cbn [handleActions].
    rewrite (tickClock_animating draw s 0 k Hphase Hframe).
    change (0 =? ROW_ANIMATION_FRAMES) with false. cbv iota.
    change (replicate 6 Action.TICK_CLOCK)
      with (replicate 5 Action.TICK_CLOCK ++ [Action.TICK_CLOCK]).
    assert (Happ : forall l1 l2 (s0 : State) k0,
              runActions draw fuel s0 (l1 ++ l2) k0
              = bind (runActions draw fuel s0 l1)
                  (fun s1 => runActions draw fuel s1 l2) k0).
    { induction l1 as [|a l1 IHl]; intros l2 s0 k0; simpl.
      - reflexivity.
      - unfold bind. destruct (handleActions draw fuel s0 a k0)
          as [[s1 k1]| |]; try reflexivity. apply IHl. }
    rewrite Happ. unfold bind at 1.
    rewrite (ticks_animating draw fuel 5 (setFrame s (Some (0 + 1))) 1 k);
      [|exact Hphase|reflexivity|lia|unfold ROW_ANIMATION_FRAMES; lia].
    cbn [runActions]. unfold bind, ret. cbn [handleActions].
    rewrite (tickClock_animating draw _ 6 k); [|exact Hphase|reflexivity].
    reflexivity.
Qed.

Lemma freshGame_tick :
  handleActions allI 30 freshGame Action.TICK_CLOCK 10%nat
  = Ok (freshGameTicked, 10%nat).
Proof. vm_compute. reflexivity. Defined.

Lemma handleActions_phase_witness :
  (Action.TICK_CLOCK = Action.START_GAME
   /\ freshGameTicked.(phase) = GamePhase.IN_PROGRESS)
  \/ (Action.TICK_CLOCK <> Action.START_GAME
      /\ freshGameTicked.(phase) = freshGame.(phase))
  \/ (Action.TICK_CLOCK = Action.TICK_CLOCK
      /\ freshGame.(phase) = GamePhase.IN_PROGRESS
      /\ freshGameTicked.(phase) = GamePhase.OVER
      /\ FallingBrick.gameOver (spawned freshGame.(fallingBrick))
           freshGame.(bricks) = true
      /\ freshGameTicked.(bricks) = freshGame.(bricks)
      /\ freshGameTicked.(score) = freshGame.(score)
      /\ freshGameTicked.(queue) = freshGame.(queue) /\ 10%nat = 10%nat).
Proof.
  apply (handleActions_phase allI 30 freshGame freshGameTicked
           Action.TICK_CLOCK 10%nat 10%nat).
  exact freshGame_tick.
Defined.

Lemma almostComplete_locksIn : locksIn almostComplete.
Proof. repeat split; vm_compute; reflexivity. Defined.

Lemma handleActions_score_witness :
  exists s',
    handleActions allI 0 almostComplete Action.TICK_CLOCK 0%nat
    = Ok (s', 1%nat)
    /\ s'.(score) = 100
    /\ s'.(completedRowAnimationFrame) = Some 0.
Proof.
  eexists. split; [vm_compute; reflexivity|].
  refine (proj1 (handleActions_score allI 0 almostComplete _
                   Action.TICK_CLOCK 0%nat 1%nat _ _ _ eq_refl)
            (conj eq_refl almostComplete_locksIn)).
  - discriminate.
  - simpl. lia.
  - vm_compute. discriminate.
Defined.

Lemma settled_invariant_witness : settled freshGameTicked.
Proof.
  apply (proj2 (settled_invariant allI) 30%nat freshGame Action.TICK_CLOCK
           10%nat freshGameTicked 10%nat).
  - intros _. reflexivity.
  - exact freshGame_tick.
Defined.

Lemma grid_height_invariant_witness :
  length freshGameTicked.(bricks) = Z.to_nat GRID_HEIGHT.
Proof.
  apply (grid_height_invariant allI 30 freshGame freshGameTicked
           Action.TICK_CLOCK 10%nat 10%nat).
  - reflexivity.
  - exact freshGame_tick.
Defined.

Lemma animation_runs_witness :
  runActions allI 0 (animatingAt 0) (replicate 7 Action.TICK_CLOCK) 0%nat
  = Ok (setBricks (setFrame (animatingAt 0) None)
          (removeCompletedRowsFromGrid (animatingAt 0).(bricks)), 0%nat).
Proof.
  apply (proj2 (animation_runs allI 0 (animatingAt 0) 0%nat eq_refl eq_refl)).
Defined.

Lemma existsb_false_inv {A : Type} (f : A -> bool) (l : list A) (a : A) :
  existsb f l = false -> In a l -> f a = false.
Proof.
  intros Hex Hin. destruct (f a) eqn:Hfa; [|reflexivity].
  rewrite <- Hex. symmetry. apply existsb_exists. eauto.
Qed.

Lemma isAgainstWall_false (fb : FallingBrick.t) (left : bool) :
  FallingBrick.isAgainstWall fb left = false
  <-> forall r c : nat,
        truthy (bitAt (FallingBrick.shape fb) r c) = true ->
        neqb (nadd fb.(FallingBrick.x) (Z.of_nat c))
          (if left then 0 else GRID_WIDTH - 1) = false.
Proof.
  unfold FallingBrick.isAgainstWall. split.
  - intros Hwall r c Hbit.
    destruct (bit_inside _ _ _ _ (shape_square fb) Hbit) as [Hr Hc].
    pose proof (existsb_false_inv _ _ r Hwall ltac:(apply in_seq; lia)) as Hrow.
    pose proof (existsb_false_inv _ _ c Hrow ltac:(apply in_seq; lia)) as Hcell.
    cbv beta in Hcell. rewrite Hbit in Hcell. exact Hcell.
  - intros Hall. apply existsb_false_all. intros r _.
    apply existsb_false_all. intros c _.
    destruct (truthy (bitAt _ r c)) eqn:Hbit; [|reflexivity].
    simpl. exact (Hall r c Hbit).
Qed.

Lemma shape_setX (fb : FallingBrick.t) (v : Z) :
  FallingBrick.isUnspawned fb = false ->
  FallingBrick.shape (FallingBrick.setX fb (Fin v)) = FallingBrick.shape fb.
Proof.
  intros Hun. unfold FallingBrick.shape. rewrite Hun. reflexivity.
Qed.

(** What a sideways move does. *)
Lemma move_cases (fb : FallingBrick.t) (grid : Grid) (left : bool) :
  let fb' := if left then FallingBrick.moveLeft fb grid
             else FallingBrick.moveRight fb grid in
  let dx := if left then -1 else 1 in
  fb' = fb
  \/ (exists xz, fb.(FallingBrick.x) = Fin xz
        /\ fb' = FallingBrick.setX fb (Fin (xz + dx))
        /\ FallingBrick.shape fb' = FallingBrick.shape fb
        /\ collision grid (FallingBrick.shape fb) (Fin (xz + dx))
             fb.(FallingBrick.y) = false
        /\ FallingBrick.isAgainstWall fb left = false).
Proof.
  intros fb' dx. subst fb' dx.
  destruct left; unfold FallingBrick.moveLeft, FallingBrick.moveRight,
    FallingBrick.canMoveLeft, FallingBrick.canMoveRight, FallingBrick.canMove.
  - destruct (FallingBrick.isUnspawned fb) eqn:Hun; [left; reflexivity|].
    destruct (collision _ _ _ _) eqn:Hcol; [left; reflexivity|].
    destruct (FallingBrick.isAgainstWall fb true) eqn:Hwall;
      [left; reflexivity|].
    simpl. right. destruct fb as [t [|xz] y o]; [discriminate|].
    exists xz. split; [reflexivity|]. split; [reflexivity|].
    split; [apply (shape_setX _ _ Hun)|]. split; [exact Hcol|reflexivity].
  - destruct (FallingBrick.isUnspawned fb) eqn:Hun; [left; reflexivity|].
    destruct (collision _ _ _ _) eqn:Hcol; [left; reflexivity|].
    destruct (FallingBrick.isAgainstWall fb false) eqn:Hwall;
      [left; reflexivity|].
    simpl. right. destruct fb as [t [|xz] y o]; [discriminate|].
    exists xz. split; [reflexivity|]. split; [reflexivity|].
    split; [apply (shape_setX _ _ Hun)|]. split; [exact Hcol|reflexivity].
Qed.

(** X10: [moveLeft] and [moveRight] shift the brick by one column or leave
    it as it is; a brick that moved is spawned and does not overlap a cell
    that is not empty; and a brick whose occupied cells are all in columns
    0 to 9 keeps them there, also in the rows above the board where
    [collision] sees no wall. *)
Theorem move_outcome (fb : FallingBrick.t) (grid : Grid) (left : bool) :
  let fb' := if left then FallingBrick.moveLeft fb grid
             else FallingBrick.moveRight fb grid in
  (fb' = fb
   \/ (fb' = FallingBrick.setX fb
               (nadd fb.(FallingBrick.x) (if left then -1 else 1))
       /\ FallingBrick.isUnspawned fb = false
       /\ clearOf grid fb'))
  /\ (insideWalls fb -> insideWalls fb').
Proof.
  intros fb'. destruct (move_cases fb grid left)
    as [Hsame|(xz & Hx & Hmove & Hshape & Hcol & Hwall)];
    [fold fb' in Hsame|fold fb' in Hmove, Hshape].
  - rewrite Hsame. split; [left; reflexivity|trivial].
  - split.
    + right. rewrite Hx. split; [exact Hmove|]. split.
      * unfold FallingBrick.isUnspawned. rewrite Hx. reflexivity.
      * unfold clearOf. rewrite Hshape, Hmove. exact Hcol.
    + intros (xz' & Hx' & Hcols). rewrite Hx in Hx'. injection Hx' as <-.
      exists (xz + (if left then -1 else 1)). split; [rewrite Hmove; reflexivity|].
      intros r c Hbit. rewrite Hshape in Hbit.
      specialize (Hcols r c Hbit).
      pose proof (proj1 (isAgainstWall_false fb left) Hwall r c Hbit) as Hw.
      rewrite Hx in Hw. simpl in Hw. apply Z.eqb_neq in Hw.
      destruct left; unfold GRID_WIDTH in *; lia.
Qed.

(** X11: for a brick between the side walls that overlaps nothing, a
    [moveLeft] that moved it is undone by [moveRight], and a [moveRight]
    that moved it is undone by [moveLeft]. *)
Theorem move_there_and_back (fb : FallingBrick.t) (grid : Grid) :
  insideWalls fb -> clearOf grid fb ->
  (FallingBrick.moveLeft fb grid <> fb ->
   FallingBrick.moveRight (FallingBrick.moveLeft fb grid) grid = fb)
  /\ (FallingBrick.moveRight fb grid <> fb ->
      FallingBrick.moveLeft (FallingBrick.moveRight fb grid) grid = fb).
Proof.
  intros (xz0 & Hx0 & Hcols) Hclear.
  assert (Hback : forall left : bool,
            let fb' := if left then FallingBrick.moveLeft fb grid
                       else FallingBrick.moveRight fb grid in
            fb' <> fb ->
            (if left then FallingBrick.moveRight fb' grid
             else FallingBrick.moveLeft fb' grid) = fb).
  { intros left fb' Hmoved.
    destruct (move_cases fb grid left)
      as [Hsame|(xz & Hx & Hmove & Hshape & Hcol & Hwall)];
      [contradiction|].
    fold fb' in Hmove, Hshape.
    rewrite Hx in Hx0. injection Hx0 as <-.
    assert (Hun' : FallingBrick.isUnspawned fb' = false)
      by (rewrite Hmove; reflexivity).
    assert (Hx' : FallingBrick.x fb' = Fin (xz + (if left then -1 else 1)))
      by (rewrite Hmove; reflexivity).
    assert (Hy' : FallingBrick.y fb' = FallingBrick.y fb)
      by (rewrite Hmove; reflexivity).
    assert (Hwall' : FallingBrick.isAgainstWall fb' (negb left) = false).
    { apply isAgainstWall_false. intros r c Hbit. rewrite Hshape in Hbit.
      specialize (Hcols r c Hbit). rewrite Hx'. simpl. apply Z.eqb_neq.
      destruct left; simpl; unfold GRID_WIDTH in *; lia. }
    assert (Hcol' : collision grid (FallingBrick.shape fb')
                      (nadd (FallingBrick.x fb')
                         (if negb left then -1 else 1))
                      (FallingBrick.y fb') = false).
    { rewrite Hshape, Hx', Hy'. unfold clearOf in Hclear.
      rewrite Hx in Hclear. simpl.
      replace (xz + (if left then -1 else 1) + (if negb left then -1 else 1))
        with xz by (destruct left; simpl; lia).
      exact Hclear. }
    assert (Hres : FallingBrick.setX fb'
                     (nadd (FallingBrick.x fb') (if negb left then -1 else 1))
                   = fb).
    { rewrite Hx'. rewrite Hmove. destruct fb as [t x y o].
      simpl in Hx. subst x. unfold FallingBrick.setX. simpl. f_equal. f_equal.
      destruct left; simpl; lia. }
    destruct left; simpl in Hwall', Hcol', Hres;
      unfold FallingBrick.moveLeft, FallingBrick.moveRight,
        FallingBrick.canMoveLeft, FallingBrick.canMoveRight,
        FallingBrick.canMove;
      rewrite Hun', Hcol', Hwall'; simpl; exact Hres. }
  split; [exact (Hback true)|exact (Hback false)].
Qed.

Lemma nonempty_row_inside (shape : BrickShape) (r : nat) :
  isEmptyBitGridRow shape r = false -> (r < shapeSize shape)%nat.
Proof.
  unfold isEmptyBitGridRow. destruct (shape !! r) as [row|] eqn:Hrow;
    [|discriminate].
  intros _. apply lookup_lt_Some in Hrow. exact Hrow.
Qed.

Lemma isTouchingFloor_false (fb : FallingBrick.t) (yz : Z) (r : nat) :
  FallingBrick.isTouchingFloor fb = false ->
  fb.(FallingBrick.y) = Fin yz ->
  isEmptyBitGridRow (FallingBrick.shape fb) r = false ->
  yz + Z.of_nat r + 1 <> GRID_HEIGHT.
Proof.
  unfold FallingBrick.isTouchingFloor. intros Hfloor Hy Hrow.
  pose proof (nonempty_row_inside _ _ Hrow) as Hr.
  pose proof (existsb_false_inv _ _ r Hfloor
                ltac:(apply in_rev; rewrite rev_involutive;
                      apply in_seq; lia)) as Hcell.
  cbv beta in Hcell. rewrite Hrow, Hy in Hcell. simpl in Hcell.
  apply Z.eqb_neq in Hcell. exact Hcell.
Qed.

Lemma aboveFloor_lower (fb : FallingBrick.t) (grid : Grid) :
  aboveFloor fb -> FallingBrick.canFall fb grid = true ->
  aboveFloor (lower fb 1).
Proof.
  intros (yz & Hy & Hrows) Hfall. unfold FallingBrick.canFall in Hfall.
  apply andb_true_iff in Hfall as [Hfloor _].
  apply negb_true_iff in Hfloor.
  exists (yz + 1). split; [unfold lower; simpl; rewrite Hy; reflexivity|].
  intros r Hrow. rewrite shape_lower in Hrow.
  pose proof (Hrows r Hrow).
  pose proof (isTouchingFloor_false fb yz r Hfloor Hy Hrow). lia.
Qed.

Lemma clearOf_lower (fb : FallingBrick.t) (grid : Grid) :
  FallingBrick.canFall fb grid = true -> clearOf grid (lower fb 1).
Proof.
  unfold FallingBrick.canFall, FallingBrick.isOnTopOfBricks, clearOf.
  intros Hfall. apply andb_true_iff in Hfall as [_ Htop].
  apply negb_true_iff in Htop. exact Htop.
Qed.

(** X12: [tickGravity] reports the brick landed exactly when [canFall] is
    false, and then leaves it where it is; otherwise it reports it still
    falling and moves it exactly one row down, onto cells that are all
    empty.  A brick with no occupied row below the last row of the board
    keeps that property. *)
Theorem tickGravity_outcome (fb : FallingBrick.t) (grid : Grid) :
  let landed := fst (FallingBrick.tickGravity fb grid) in
  let fb' := snd (FallingBrick.tickGravity fb grid) in
  landed = negb (FallingBrick.canFall fb grid)
  /\ (FallingBrick.canFall fb grid = false -> landed = true /\ fb' = fb)
  /\ (FallingBrick.canFall fb grid = true ->
      landed = false /\ fb' = lower fb 1 /\ clearOf grid fb')
  /\ (aboveFloor fb -> aboveFloor fb').
Proof.
  unfold FallingBrick.tickGravity.
  destruct (FallingBrick.canFall fb grid) eqn:Hfall; simpl.
  - split; [reflexivity|]. split; [discriminate|]. split.
    + intros _. split; [reflexivity|]. split; [reflexivity|].
      apply clearOf_lower. exact Hfall.
    + intros Habove. exact (aboveFloor_lower fb grid Habove Hfall).
  - split; [reflexivity|]. split; [intros _; split; reflexivity|].
    split; [discriminate|trivial].
Qed.

Lemma fastFallLoop_keeps (n : nat) :
  forall (fb fb' : FallingBrick.t) (grid : Grid),
    FallingBrick.fastFallLoop n fb grid = Ok fb' ->
    (aboveFloor fb -> aboveFloor fb')
    /\ (clearOf grid fb -> clearOf grid fb').
Proof.
  induction n as [|n IH]; intros fb fb' grid Hrun; simpl in Hrun;
    [discriminate|].
  destruct (FallingBrick.canFall fb grid) eqn:Hfall.
  - destruct (IH _ _ _ Hrun) as [Ha Hc]. split.
    + intros Habove. apply Ha. exact (aboveFloor_lower fb grid Habove Hfall).
    + intros _. apply Hc. exact (clearOf_lower fb grid Hfall).
  - injection Hrun as <-. split; trivial.
Qed.

(** X13: when [fastFall] returns, the brick has moved straight down by
    some number of rows, a brick with no occupied row below the last row of
    the board still has none, a brick that overlapped nothing still
    overlaps nothing, and for a spawned brick the next [tickGravity]
    reports it landed without moving it. *)
Theorem fastFall_lands (fuel : nat) (fb fb' : FallingBrick.t) (grid : Grid) :
  FallingBrick.fastFall fuel fb grid = Ok fb' ->
  (exists j : nat, fb' = lower fb (Z.of_nat j))
  /\ (aboveFloor fb -> aboveFloor fb')
  /\ (clearOf grid fb -> clearOf grid fb')
  /\ (FallingBrick.isUnspawned fb = false ->
      FallingBrick.tickGravity fb' grid = (true, fb')).
Proof.
  unfold FallingBrick.fastFall.
  destruct (FallingBrick.isUnspawned fb) eqn:Hun; intros Hrun.
  - injection Hrun as <-. split; [exists 0%nat; symmetry; apply lower_0|].
    split; [trivial|]. split; [trivial|]. discriminate.
  - destruct (fastFallLoop_sound _ _ _ _ Hrun) as (j & Hj & Hstop & _).
    destruct (fastFallLoop_keeps _ _ _ _ Hrun) as [Ha Hc].
    split; [exists j; exact Hj|]. split; [exact Ha|]. split; [exact Hc|].
    intros _. unfold FallingBrick.tickGravity. rewrite Hstop. reflexivity.
Qed.

Lemma collision_above (grid : Grid) (shape : BrickShape) (x0 : num) (yz : Z) :
  yz + Z.of_nat (shapeSize shape) <= 0 ->
  collision grid shape x0 (Fin yz) = false.
Proof.
  intros Hy. unfold collision.
  apply existsb_false_all. intros r Hr. apply in_seq in Hr.
  apply existsb_false_all. intros c _.
  unfold isEmptyCell, gridRow. simpl.
  destruct (Z.ltb_spec (yz + Z.of_nat r) 0); [|lia].
  apply andb_false_r.
Qed.

Lemma shapeSize_shape (fb : FallingBrick.t) :
  shapeSize (FallingBrick.shape fb)
  = shapeSize (brickTypeToShapeMap fb.(FallingBrick.type)).
Proof.
  unfold FallingBrick.shape. destruct (_ || _); [reflexivity|].
  apply shapeSize_rotateShape.
Qed.

Lemma canonical_size (t : BrickType.t) :
  (2 <= shapeSize (brickTypeToShapeMap t) <= 4)%nat.
Proof. destruct t; simpl; lia. Qed.

(** X14: [spawn] keeps type and orientation and puts the brick at column
    floor((10 - size) / 2), row -size: the brick is then spawned, wholly
    above the board, between the side walls, and overlaps nothing whatever
    the grid. *)
Theorem spawn_above_board (fb : FallingBrick.t) (grid : Grid) :
  let fb' := FallingBrick.spawn fb in
  let size := Z.of_nat (shapeSize (brickTypeToShapeMap fb.(FallingBrick.type))) in
  FallingBrick.isUnspawned fb' = false
  /\ fb'.(FallingBrick.type) = fb.(FallingBrick.type)
  /\ fb'.(FallingBrick.orientation) = fb.(FallingBrick.orientation)
  /\ fb'.(FallingBrick.x) = Fin ((GRID_WIDTH - size) / 2)
  /\ fb'.(FallingBrick.y) = Fin (- size)
  /\ clearOf grid fb'
  /\ insideWalls fb'
  /\ aboveFloor fb'.
Proof.
  intros fb' size. subst fb' size. unfold FallingBrick.spawn.
  rewrite shapeSize_shape.
  set (size := shapeSize (brickTypeToShapeMap (FallingBrick.type fb))).
  set (fb' := FallingBrick.mk _ _ _ _).
  assert (Hsize : shapeSize (FallingBrick.shape fb') = size)
    by apply shapeSize_shape.
  pose proof (canonical_size (FallingBrick.type fb)) as Hbound.
  fold size in Hbound.
  split; [reflexivity|]. split; [reflexivity|]. split; [reflexivity|].
  split; [reflexivity|]. split; [reflexivity|]. split; [|split].
  - unfold clearOf. apply collision_above. rewrite Hsize. simpl. lia.
  - eexists. split; [reflexivity|]. intros r c Hbit.
    destruct (bit_inside _ _ _ _ (shape_square fb') Hbit) as [_ Hc].
    rewrite Hsize in Hc. unfold GRID_WIDTH. clearbody size.
    pose proof (Z.div_mod (10 - Z.of_nat size) 2 ltac:(lia)) as Hdiv.
    pose proof (Z.mod_pos_bound (10 - Z.of_nat size) 2 ltac:(lia)) as Hmod.
    lia.
  - eexists. split; [reflexivity|]. intros r Hrow.
    apply nonempty_row_inside in Hrow. rewrite Hsize in Hrow.
    unfold GRID_HEIGHT. lia.
Qed.

Lemma tryKicks_outcome (this : FallingBrick.t) (grid : Grid)
  (o : Orientation.t) (shape : BrickShape) (pairs : WallKickList) :
  FallingBrick.tryKicks this grid o shape pairs = this
  \/ exists dx dy,
       In (dx, dy) pairs
       /\ FallingBrick.tryKicks this grid o shape pairs
          = FallingBrick.mk this.(FallingBrick.type)
              (nadd this.(FallingBrick.x) dx) (nadd this.(FallingBrick.y) dy) o
       /\ collision grid shape (nadd this.(FallingBrick.x) dx)
            (nadd this.(FallingBrick.y) dy) = false.
Proof.
  induction pairs as [|[dx dy] rest IH]; simpl; [left; reflexivity|].
  destruct (collision grid shape _ _) eqn:Hcol; simpl.
  - destruct IH as [IH|(dx' & dy' & Hin & Heq & Hfree)]; [left; exact IH|].
    right. exists dx', dy'. split; [right; exact Hin|]. split; assumption.
  - right. exists dx, dy. split; [left; reflexivity|]. split;
      [reflexivity|exact Hcol].
Qed.

Lemma kick_bounds (i : bool) (o : Orientation.t) (dx dy : Z) :
  In (dx, dy)
    ((if i then iOrientationToWallKickMap else jlstzOrientationToWallKickMap)
       o) ->
  -2 <= dx <= 2 /\ -2 <= dy <= 2.
Proof.
  destruct i, o; simpl; intros H;
    repeat (destruct H as [H|H]; [injection H as <- <-; lia|]);
    contradiction.
Qed.

(** X15: [rotate] changes nothing on an unspawned brick or an O.  On any
    other brick it either leaves the brick as it is, or advances its
    orientation by one and shifts it by one of the five offsets that its
    kick table (the I table for an I, the other table otherwise) lists for
    its current orientation, an offset of at most two cells in each
    direction at which the shape it tested does not collide; it never
    changes the type. *)
Theorem rotate_outcome (fb : FallingBrick.t) (grid : Grid) :
  (FallingBrick.isUnspawned fb = true
   \/ fb.(FallingBrick.type) = BrickType.O ->
   FallingBrick.rotate fb grid = fb)
  /\ (FallingBrick.rotate fb grid = fb
      \/ exists dx dy,
           In (dx, dy)
             ((if BrickType.eqb fb.(FallingBrick.type) BrickType.I
               then iOrientationToWallKickMap
               else jlstzOrientationToWallKickMap)
                fb.(FallingBrick.orientation))
           /\ -2 <= dx <= 2 /\ -2 <= dy <= 2
           /\ FallingBrick.rotate fb grid
              = FallingBrick.mk fb.(FallingBrick.type)
                  (nadd fb.(FallingBrick.x) dx) (nadd fb.(FallingBrick.y) dy)
                  (incrementOrientation fb.(FallingBrick.orientation))
           /\ collision grid
                (rotateShape (FallingBrick.shape fb)
                   (incrementOrientation fb.(FallingBrick.orientation)))
                (nadd fb.(FallingBrick.x) dx) (nadd fb.(FallingBrick.y) dy)
              = false).
Proof.
  unfold FallingBrick.rotate. split.
  - intros [Hun|HO]; [rewrite Hun; reflexivity|].
    destruct (FallingBrick.isUnspawned fb); [reflexivity|].
    rewrite HO. reflexivity.
  - destruct (FallingBrick.isUnspawned fb) eqn:Hun; [left; reflexivity|].
    destruct (BrickType.eqb (FallingBrick.type fb) BrickType.O) eqn:HO;
      [left; reflexivity|].
    cbv zeta.
    destruct (tryKicks_outcome fb grid
                (incrementOrientation (FallingBrick.orientation fb))
                (rotateShape (FallingBrick.shape fb)
                   (incrementOrientation (FallingBrick.orientation fb)))
                ((if BrickType.eqb (FallingBrick.type fb) BrickType.I
                  then iOrientationToWallKickMap
                  else jlstzOrientationToWallKickMap)
                   (FallingBrick.orientation fb)))
      as [Hsame|(dx & dy & Hin & Heq & Hfree)]; [left; exact Hsame|].
    right. exists dx, dy. split; [exact Hin|].
    apply kick_bounds in Hin as [Hdx Hdy].
    split; [exact Hdx|]. split; [exact Hdy|]. split; assumption.
Qed.

Lemma rotate_outcome_witness :
  FallingBrick.rotate (FallingBrick.new BrickType.T) gridWithSettledO
  = FallingBrick.new BrickType.T.
Proof.
  apply (proj1 (rotate_outcome (FallingBrick.new BrickType.T)
                  gridWithSettledO)).
  left. reflexivity.
Defined.

Lemma first_kick (i : bool) (o : Orientation.t) :
  exists rest,
    (if i then iOrientationToWallKickMap else jlstzOrientationToWallKickMap) o
    = (0, 0) :: rest.
Proof. destruct i, o; eexists; reflexivity. Qed.

(** A brick wholly above the board turns on the spot. *)
Lemma rotate_above (fb : FallingBrick.t) (grid : Grid) (xz yz : Z) :
  fb.(FallingBrick.x) = Fin xz -> fb.(FallingBrick.y) = Fin yz ->
  BrickType.eqb fb.(FallingBrick.type) BrickType.O = false ->
  yz + Z.of_nat (shapeSize (brickTypeToShapeMap fb.(FallingBrick.type))) <= 0 ->
  FallingBrick.rotate fb grid
  = FallingBrick.mk fb.(FallingBrick.type) (Fin xz) (Fin yz)
      (incrementOrientation fb.(FallingBrick.orientation)).
Proof.
  intros Hx Hy HO Habove. unfold FallingBrick.rotate.
  unfold FallingBrick.isUnspawned. rewrite Hx, HO. cbn [num_eqb UNSPAWNED_POS].
  cbv zeta.
  destruct (first_kick (BrickType.eqb (FallingBrick.type fb) BrickType.I)
              (FallingBrick.orientation fb)) as [rest ->].
  cbn [FallingBrick.tryKicks]. rewrite Hx, Hy. cbn [nadd].
  rewrite !Z.add_0_r.
  rewrite collision_above; [reflexivity|].
  rewrite shapeSize_rotateShape, shapeSize_shape. exact Habove.
Qed.

(** X16: four rotations of a brick that lies wholly above the board give
    the brick back, whatever the grid and the type. *)
Theorem rotate_four_times (fb : FallingBrick.t) (grid : Grid) (yz : Z) :
  fb.(FallingBrick.y) = Fin yz ->
  yz + Z.of_nat (shapeSize (brickTypeToShapeMap fb.(FallingBrick.type))) <= 0 ->
  Nat.iter 4 (fun b => FallingBrick.rotate b grid) fb = fb.
Proof.
  intros Hy Habove. destruct fb as [t x y o]. simpl in Hy, Habove. subst y.
  destruct x as [|xz]; [reflexivity|].
  destruct (BrickType.eqb t BrickType.O) eqn:HO.
  { simpl. unfold FallingBrick.rotate. simpl. rewrite HO. simpl.
    rewrite HO. simpl. rewrite HO. simpl. rewrite HO. reflexivity. }
  assert (Hrot : forall o',
            FallingBrick.rotate (FallingBrick.mk t (Fin xz) (Fin yz) o') grid
            = FallingBrick.mk t (Fin xz) (Fin yz) (incrementOrientation o')).
  { intros o'.
    exact (rotate_above (FallingBrick.mk t (Fin xz) (Fin yz) o') grid xz yz
             eq_refl eq_refl HO Habove). }
  unfold Nat.iter. cbn [nat_rect]. rewrite !Hrot. destruct o; reflexivity.
Qed.

Lemma copy_id (fb : FallingBrick.t) : Presenter.copy fb = fb.
Proof. destruct fb; reflexivity. Qed.

Lemma num_eqb_lower (fb : FallingBrick.t) (j : nat) :
  num_eqb (lower fb (Z.of_nat j)).(FallingBrick.y) fb.(FallingBrick.y) = true
  -> lower fb (Z.of_nat j) = fb.
Proof.
  destruct fb as [t x [|yz] o]; unfold lower, FallingBrick.setY; simpl;
    [reflexivity|].
  intros H. apply Z.eqb_eq in H. do 2 f_equal. exact H.
Qed.

(** X17: when [renderProjection] returns, it has drawn nothing exactly if
    the brick is unspawned or cannot fall; what it draws otherwise is the
    brick after a hard drop, strictly below the brick and unable to fall. *)
Theorem renderProjection_shown (fuel : nat) (fb : FallingBrick.t)
  (grid : Grid) (r : option FallingBrick.t) :
  Presenter.renderProjection fuel fb grid = Ok r ->
  (r = None
   <-> FallingBrick.isUnspawned fb = true
       \/ FallingBrick.canFall fb grid = false)
  /\ (forall proj, r = Some proj ->
        FallingBrick.fastFall fuel fb grid = Ok proj
        /\ FallingBrick.canFall proj grid = false
        /\ exists j : nat, (0 < j)%nat /\ proj = lower fb (Z.of_nat j)).
Proof.
  unfold Presenter.renderProjection. rewrite copy_id.
  destruct (FallingBrick.fastFall fuel fb grid) as [proj| |] eqn:Hrun;
    simpl; try discriminate.
  pose proof Hrun as Hfast. unfold FallingBrick.fastFall in Hrun.
  destruct (FallingBrick.isUnspawned fb) eqn:Hun.
  - injection Hrun as <-.
    assert (Hrefl : num_eqb (FallingBrick.y fb) (FallingBrick.y fb) = true)
      by (destruct (FallingBrick.y fb); simpl; [reflexivity|apply Z.eqb_refl]).
    rewrite Hrefl. intros H. injection H as <-.
    split; [split; [left; reflexivity|reflexivity]|discriminate].
  - destruct (fastFallLoop_sound _ _ _ _ Hrun) as (j & -> & Hstop & Hbefore).
    destruct (num_eqb _ _) eqn:Hy; intros H; injection H as <-.
    + apply num_eqb_lower in Hy. rewrite Hy in Hstop.
      split; [split; [right; exact Hstop|reflexivity]|discriminate].
    + split.
      * split; [discriminate|]. intros [H|H]; [discriminate|].
        destruct j as [|j].
        -- rewrite lower_0 in Hy.
           destruct (FallingBrick.y fb); simpl in Hy;
             [discriminate|rewrite Z.eqb_refl in Hy; discriminate].
        -- specialize (Hbefore 0%nat ltac:(lia)). rewrite lower_0 in Hbefore.
           congruence.
      * intros proj Hp. injection Hp as <-.
        split; [reflexivity|]. split; [exact Hstop|].
        exists j. split; [|reflexivity]. destruct j as [|j]; [|lia].
        rewrite lower_0 in Hy.
        destruct (FallingBrick.y fb); simpl in Hy;
          [discriminate|rewrite Z.eqb_refl in Hy; discriminate].
Qed.

(** X18: [removeCompletedRowsFromGrid] is idempotent on every grid, keeps
    rows 10 cells wide when they all were, and on a grid of 20 rows adds
    exactly one empty row per complete row. *)
Theorem removeCompletedRows_idempotent (grid : Grid) :
  removeCompletedRowsFromGrid (removeCompletedRowsFromGrid grid)
  = removeCompletedRowsFromGrid grid
  /\ (Forall (fun row => length row = Z.to_nat GRID_WIDTH) grid ->
      Forall (fun row => length row = Z.to_nat GRID_WIDTH)
        (removeCompletedRowsFromGrid grid))
  /\ (length grid = Z.to_nat GRID_HEIGHT ->
      removeCompletedRowsFromGrid grid
      = replicate (countCompleteRows grid) (emptyRow (Z.to_nat GRID_WIDTH))
        ++ List.filter isIncompleteRow grid).
Proof.
  split; [|split].
  - rewrite (removeCompletedRowsFromGrid_eq (removeCompletedRowsFromGrid grid)).
    rewrite (filter_incomplete_all _ (hasCompletedRow_removed grid)).
    rewrite removeCompletedRowsFromGrid_eq at 1.
    rewrite length_app, length_replicate.
    replace (Z.to_nat GRID_HEIGHT
             - (Z.to_nat GRID_HEIGHT
                - length (List.filter isIncompleteRow grid)
                + length (List.filter isIncompleteRow grid)))%nat
      with 0%nat by lia.
    reflexivity.
  - intros Hrows. rewrite removeCompletedRowsFromGrid_eq.
    apply Forall_app. split.
    + apply Forall_forall. intros row Hin.
      apply elem_of_replicate in Hin as [-> _].
      unfold emptyRow. apply length_replicate.
    + rewrite Forall_forall in Hrows. apply Forall_forall. intros row Hin.
      apply Hrows. apply list_elem_of_In in Hin.
      apply filter_In in Hin as [Hin _]. apply list_elem_of_In. exact Hin.
  - intros Hlen. rewrite removeCompletedRowsFromGrid_eq. f_equal. f_equal.
    unfold countCompleteRows. rewrite <- Hlen. clear Hlen.
    induction grid as [|row grid IH]; simpl; [reflexivity|].
    pose proof (filter_incomplete_length grid).
    unfold isIncompleteRow at 1. destruct (isCompleteRow row); simpl; lia.
Qed.

Lemma writeFallingBrickToGrid_throws (s : State) (r c : nat) :
  truthy (bitAt (FallingBrick.shape s.(fallingBrick)) r c) = true ->
  ~ rowExists s.(bricks) (nadd s.(fallingBrick).(FallingBrick.y) (Z.of_nat r)) ->
  writeFallingBrickToGrid s = TypeError.
Proof.
  intros Hbit Hrow.
  destruct (bit_inside _ _ _ _ (shape_square s.(fallingBrick)) Hbit)
    as [Hr Hc].
  rewrite writeFallingBrickToGrid_rows. unfold Grid in *.
  rewrite (foldM_throws (fun g => length g = length s.(bricks))
             (writeRow s.(fallingBrick)) _ r); [reflexivity| | | |reflexivity].
  - intros g x Hlen. apply writeRow_outcome. exact Hlen.
  - intros g Hlen. apply (writeRow_throws _ g r c Hc Hbit).
    intros Hg. apply Hrow. apply (rowExists_length g); assumption.
  - apply in_seq. lia.
Qed.

(** X19: a TICK_CLOCK that reaches lock-in with an occupied cell of the
    brick on a row the grid does not have raises a [TypeError]; this state
    is met in play, when an I brick lying on the floor is rotated upright. *)
Theorem tickClock_raises (draw : nat -> BrickType.t) (fuel : nat)
  (s : State) (k : nat) (r c : nat) :
  locksIn s ->
  truthy (bitAt (FallingBrick.shape (spawned s.(fallingBrick))) r c) = true ->
  ~ rowExists s.(bricks)
      (nadd (spawned s.(fallingBrick)).(FallingBrick.y) (Z.of_nat r)) ->
  handleActions draw fuel s Action.TICK_CLOCK k = TypeError.
Proof.
  intros (Hphase & Hframe & Hfall & Hover) Hbit Hrow.
  cbn [handleActions]. unfold tickClock, isRowAnimating.
  rewrite Hphase, Hframe. simpl. rewrite spawned_state.
  cbn [fallingBrick bricks setFallingBrick].
  unfold FallingBrick.tickGravity. rewrite Hfall. simpl. rewrite Hover.
  unfold bind, lift.
  change (setFallingBrick (setFallingBrick s (spawned (fallingBrick s)))
            (spawned (fallingBrick s)))
    with (setFallingBrick s (spawned (fallingBrick s))).
  rewrite (writeFallingBrickToGrid_throws _ r c); [reflexivity| |];
    cbn [fallingBrick bricks setFallingBrick]; assumption.
Qed.

Lemma tickClock_raises_witness :
  game allI 30
    [Action.START_GAME; Action.TICK_CLOCK; Action.DOWN; Action.UP] 0%nat
  = Ok (throughFloor, 10%nat)
  /\ handleActions allI 0 throughFloor Action.TICK_CLOCK 10%nat = TypeError.
Proof.
  split; [vm_compute; reflexivity|].
  apply (tickClock_raises allI 0 throughFloor 10%nat 2%nat 2%nat).
  - repeat split; vm_compute; reflexivity.
  - vm_compute. reflexivity.
  - unfold rowExists. simpl. lia.
Defined.

(** X20: START_GAME followed by one TICK_CLOCK, from any state and for any
    random bricks, gives an IN_PROGRESS state with an empty grid, score 0,
    the four queued draws, and the first drawn brick spawned at column
    floor((10 - size) / 2) and fallen to row 1 - size; five bricks have been
    drawn. *)
Theorem start_then_tick (draw : nat -> BrickType.t) (fuel : nat) (s : State)
  (k : nat) :
  let size := Z.of_nat (shapeSize (brickTypeToShapeMap (draw k))) in
  runActions draw fuel s [Action.START_GAME; Action.TICK_CLOCK] k
  = Ok (mkState GamePhase.IN_PROGRESS
          (emptyCells (Z.to_nat GRID_WIDTH) (Z.to_nat GRID_HEIGHT)) 0
          (FallingBrick.mk (draw k) (Fin ((GRID_WIDTH - size) / 2))
             (Fin (- size + 1)) Orientation.SPAWN)
          [draw (1 + k)%nat; draw (2 + k)%nat; draw (3 + k)%nat;
           draw (4 + k)%nat] None,
        (5 + k)%nat).
Proof.
  cbv zeta. cbn [runActions handleActions]. unfold bind at 1.
  unfold bind at 1. unfold initialState, bind, randomBrickType, ret. simpl.
  unfold tickClock. cbn [phase setPhase GamePhase.eqb negb isRowAnimating
                           completedRowAnimationFrame fallingBrick].
  destruct (draw k); vm_compute; reflexivity.
Qed.

Lemma brickAtTop_insideWalls : insideWalls brickAtTop.
Proof.
  exists 3. split; [reflexivity|]. intros r c.
  destruct r as [|[|[|r]]]; destruct c as [|[|[|c]]];
    try discriminate; intros _; unfold GRID_WIDTH; lia.
Defined.

Lemma brickAtTop_aboveFloor : aboveFloor brickAtTop.
Proof.
  exists 0. split; [reflexivity|]. intros r.
  destruct r as [|[|[|r]]]; try discriminate; intros _;
    unfold GRID_HEIGHT; lia.
Defined.

Lemma move_outcome_witness :
  insideWalls (FallingBrick.moveLeft brickAtTop (emptyCells 10 20)).
Proof.
  apply (proj2 (move_outcome brickAtTop (emptyCells 10 20) true)).
  exact brickAtTop_insideWalls.
Defined.

Lemma move_there_and_back_witness :
  FallingBrick.moveRight
    (FallingBrick.moveLeft brickAtTop (emptyCells 10 20)) (emptyCells 10 20)
  = brickAtTop.
Proof.
  apply (proj1 (move_there_and_back brickAtTop (emptyCells 10 20)
                  brickAtTop_insideWalls eq_refl)).
  vm_compute. discriminate.
Defined.

Lemma tickGravity_outcome_witness :
  (fst (FallingBrick.tickGravity brickAtTop (emptyCells 10 20)) = false
   /\ snd (FallingBrick.tickGravity brickAtTop (emptyCells 10 20))
      = lower brickAtTop 1
   /\ clearOf (emptyCells 10 20)
        (snd (FallingBrick.tickGravity brickAtTop (emptyCells 10 20))))
  /\ aboveFloor (snd (FallingBrick.tickGravity brickAtTop (emptyCells 10 20))).
Proof.
  destruct (tickGravity_outcome brickAtTop (emptyCells 10 20))
    as (_ & _ & Hfall & Hfloor).
  split; [apply Hfall; vm_compute; reflexivity|].
  apply Hfloor. exact brickAtTop_aboveFloor.
Defined.

Lemma fastFall_lands_witness :
  (exists j : nat, brickAtBottom = lower brickAtTop (Z.of_nat j))
  /\ (aboveFloor brickAtTop -> aboveFloor brickAtBottom)
  /\ (clearOf (emptyCells 10 20) brickAtTop
      -> clearOf (emptyCells 10 20) brickAtBottom)
  /\ (FallingBrick.isUnspawned brickAtTop = false ->
      FallingBrick.tickGravity brickAtBottom (emptyCells 10 20)
      = (true, brickAtBottom)).
Proof.
  apply (fastFall_lands 30 brickAtTop brickAtBottom (emptyCells 10 20)).
  vm_compute. reflexivity.
Defined.

Lemma rotate_four_times_witness :
  Nat.iter 4 (fun b => FallingBrick.rotate b gridWithSettledO) brickAboveBoard
  = brickAboveBoard.
Proof.
  apply (rotate_four_times brickAboveBoard gridWithSettledO (-3)).
  - reflexivity.
  - simpl. lia.
Defined.

Lemma renderProjection_shown_witness :
  (Some brickAtBottom = None
   <-> FallingBrick.isUnspawned brickAtTop = true
       \/ FallingBrick.canFall brickAtTop (emptyCells 10 20) = false)
  /\ (forall proj, Some brickAtBottom = Some proj ->
        FallingBrick.fastFall 30 brickAtTop (emptyCells 10 20) = Ok proj
        /\ FallingBrick.canFall proj (emptyCells 10 20) = false
        /\ exists j : nat,
             (0 < j)%nat /\ proj = lower brickAtTop (Z.of_nat j)).
Proof.
  apply (renderProjection_shown 30 brickAtTop (emptyCells 10 20)
           (Some brickAtBottom)).
  vm_compute. reflexivity.
Defined.

Lemma removeCompletedRows_idempotent_witness :
  removeCompletedRowsFromGrid oneCompleteRow
  = replicate (countCompleteRows oneCompleteRow)
      (emptyRow (Z.to_nat GRID_WIDTH))
    ++ List.filter isIncompleteRow oneCompleteRow.
Proof.
  apply (proj2 (proj2 (removeCompletedRows_idempotent oneCompleteRow))).
  reflexivity.
Defined.
